(** * Mailbox-access core of the Yahoo Mail server ([ymail/main.py])

    A shallow embedding of the decoding helpers ([decode_modified_utf7],
    [decode_email_header], [get_email_body]), of the connection manager
    ([connect_to_email]) and of the tools built on them ([list_folders],
    [search_emails], [read_email]), followed by the properties the design
    document states about them.

    Python text ([str]) is a list of Unicode code points, [bytes] a list of
    octets; both are lists of [N].  Exceptions are explicit: a fallible
    computation returns [Ok v] or [Raise e], and every [try]/[except] of the
    source is a [match] on that result that names the classes it catches. *)

From Stdlib Require Import String Ascii List NArith ZArith Lia Bool.
Import ListNotations.

Set Warnings "-register-all".

Local Open Scope N_scope.

(** ** Python values *)

Module Py.

Definition str := list N.
Definition bytes := list N.

(** An ASCII literal of the source, as code points. *)
Definition lit (s : string) : str :=
  map N_of_ascii (list_ascii_of_string s).

(** The exception classes that the modelled code can meet.  Every class is a
    subclass of [Exception] except [KeyboardInterrupt]; [UnicodeDecodeError]
    and [BinasciiError] are subclasses of [ValueError], not the reverse. *)
Inductive exn : Type :=
  | UnicodeDecodeError
  | UnicodeEncodeError
  | BinasciiError
  | ValueError
  | LookupError
  | AttributeError
  | TypeError
  | IndexError
  | HeaderParseError
  | IMAP4Error
  | OSError
  | KeyboardInterrupt.

Definition is_Exception (e : exn) : bool :=
  match e with KeyboardInterrupt => false | _ => true end.

Inductive result (A : Type) : Type :=
  | Ok (v : A)
  | Raise (e : exn).
Arguments Ok {A} v.
Arguments Raise {A} e.

Definition bind {A B} (r : result A) (k : A -> result B) : result B :=
  match r with Ok v => k v | Raise e => Raise e end.

Definition returns {A} (r : result A) : Prop := exists v, r = Ok v.

Definition str_eqb (a b : str) : bool :=
  if list_eq_dec N.eq_dec a b then true else false.

(** [bool(x)] for a string or a bytes object: non-empty. *)
Definition truthy (s : list N) : bool :=
  match s with [] => false | _ => true end.

(** [s[a:b]] for [0 <= a], [0 <= b]. *)
Definition slice (s : list N) (a b : nat) : list N :=
  firstn (b - a) (skipn a s).

(** [s.find(c, start)] for a one-character needle; [None] stands for -1. *)
Fixpoint find_char (c : N) (s : str) : option nat :=
  match s with
  | [] => None
  | x :: t => if x =? c then Some O
              else match find_char c t with
                   | Some k => Some (S k)
                   | None => None
                   end
  end.

Definition find_from (c : N) (s : str) (start : nat) : option nat :=
  match find_char c (skipn start s) with
  | Some k => Some (start + k)%nat
  | None => None
  end.

(** [s.replace(a, b)] for one-character [a] and [b]. *)
Definition replace_char (a b : N) (s : str) : str :=
  map (fun x => if x =? a then b else x) s.

(** [needle in s]. *)
Fixpoint is_prefix (p s : str) : bool :=
  match p, s with
  | [], _ => true
  | _ :: _, [] => false
  | x :: p', y :: s' => (x =? y) && is_prefix p' s'
  end.

Fixpoint contains (needle s : str) : bool :=
  is_prefix needle s ||
  match s with
  | [] => false
  | _ :: t => contains needle t
  end.

(** *** [binascii.a2b_base64] (lenient mode) and [base64.b64decode] *)

Definition b64_value (c : N) : option N :=
  if (65 <=? c) && (c <=? 90) then Some (c - 65)
  else if (97 <=? c) && (c <=? 122) then Some (c - 71)
  else if (48 <=? c) && (c <=? 57) then Some (c + 4)
  else if c =? 43 then Some 62
  else if c =? 47 then Some 63
  else None.

Definition u8 (x : N) : N := N.land x 255.

(** The decoding loop of [a2b_base64]: [quad_pos] counts the digits of the
    current group, [leftchar] holds its pending bits, [pads] the padding
    characters seen since the last digit.  A character outside the alphabet
    is ignored; a group left with one digit, or left open without enough
    padding, raises [binascii.Error]. *)
Fixpoint a2b_loop (data : bytes) (quad_pos : nat) (leftchar : N) (pads : nat)
                  (out : bytes) : result bytes :=
  match data with
  | [] => match quad_pos with
          | O => Ok out
          | _ => Raise BinasciiError
          end
  | this_ch :: rest =>
      if this_ch =? 61 then
        if (2 <=? quad_pos)%nat then
          if (4 <=? quad_pos + S pads)%nat then Ok out
          else a2b_loop rest quad_pos leftchar (S pads) out
        else a2b_loop rest quad_pos leftchar pads out
      else
        match b64_value this_ch with
        | None => a2b_loop rest quad_pos leftchar pads out
        | Some v =>
            match quad_pos with
            | 0%nat => a2b_loop rest 1 v 0 out
            | 1%nat =>
                a2b_loop rest 2 (N.land v 15) 0
                  (out ++ [u8 (N.lor (N.shiftl leftchar 2) (N.shiftr v 4))])
            | 2%nat =>
                a2b_loop rest 3 (N.land v 3) 0
                  (out ++ [u8 (N.lor (N.shiftl leftchar 4) (N.shiftr v 2))])
            | _ =>
                a2b_loop rest 0 0 0
                  (out ++ [u8 (N.lor (N.shiftl leftchar 6) v)])
            end
        end
  end.

Definition a2b_base64 (data : bytes) : result bytes :=
  a2b_loop data 0 0 0 [].

Definition is_ascii (s : str) : bool := forallb (fun c => c <? 128) s.

(** [base64.b64decode(s)] on a [str]: the string is first encoded as ASCII,
    and a character outside ASCII raises a plain [ValueError]. *)
Definition b64decode (s : str) : result bytes :=
  if is_ascii s then a2b_base64 s else Raise ValueError.

(** *** [bytes.decode('utf-16be')] *)

Definition is_high_surrogate (u : N) : bool := (55296 <=? u) && (u <=? 56319).
Definition is_low_surrogate (u : N) : bool := (56320 <=? u) && (u <=? 57343).

Fixpoint decode_utf16be (b : bytes) : result str :=
  match b with
  | [] => Ok []
  | [_] => Raise UnicodeDecodeError
  | b1 :: b2 :: rest =>
      let u := N.lor (N.shiftl b1 8) b2 in
      if is_low_surrogate u then Raise UnicodeDecodeError
      else if is_high_surrogate u then
        match rest with
        | b3 :: b4 :: rest' =>
            let u2 := N.lor (N.shiftl b3 8) b4 in
            if is_low_surrogate u2 then
              bind (decode_utf16be rest') (fun t =>
                Ok (65536 + N.shiftl (u - 55296) 10 + (u2 - 56320) :: t))
            else Raise UnicodeDecodeError
        | _ => Raise UnicodeDecodeError
        end
      else bind (decode_utf16be rest) (fun t => Ok (u :: t))
  end.

(** *** [bytes.decode('utf-8')], strict and with [errors='replace'] *)

Definition is_cont (b : N) : bool := (128 <=? b) && (b <? 192).

(** The scan of the UTF-8 decoder: [Some c] for a decoded code point, [None]
    for one undecodable sequence (an invalid start byte, a lead byte with the
    valid continuation bytes before the first invalid one, or a sequence cut
    short by the end of the input). *)
Fixpoint utf8_scan (b : bytes) : list (option N) :=
  match b with
  | [] => []
  | ch :: t1 =>
      if ch <? 128 then Some ch :: utf8_scan t1
      else if ch <? 194 then None :: utf8_scan t1
      else if ch <? 224 then
        match t1 with
        | [] => [None]
        | ch2 :: t2 =>
            if is_cont ch2
            then Some (N.shiftl (ch - 192) 6 + (ch2 - 128)) :: utf8_scan t2
            else None :: utf8_scan t1
        end
      else if ch <? 240 then
        match t1 with
        | [] => [None]
        | ch2 :: t2 =>
            if negb (is_cont ch2)
               || (if ch2 <? 160 then ch =? 224 else ch =? 237)
            then None :: utf8_scan t1
            else
              match t2 with
              | [] => [None]
              | ch3 :: t3 =>
                  if is_cont ch3
                  then Some (N.shiftl (ch - 224) 12 + N.shiftl (ch2 - 128) 6
                             + (ch3 - 128)) :: utf8_scan t3
                  else None :: utf8_scan t2
              end
        end
      else if ch <? 245 then
        match t1 with
        | [] => [None]
        | ch2 :: t2 =>
            if negb (is_cont ch2)
               || (if ch2 <? 144 then ch =? 240 else ch =? 244)
            then None :: utf8_scan t1
            else
              match t2 with
              | [] => [None]
              | ch3 :: t3 =>
                  if negb (is_cont ch3) then None :: utf8_scan t2
                  else
                    match t3 with
                    | [] => [None]
                    | ch4 :: t4 =>
                        if is_cont ch4
                        then Some (N.shiftl (ch - 240) 18
                                   + N.shiftl (ch2 - 128) 12
                                   + N.shiftl (ch3 - 128) 6
                                   + (ch4 - 128)) :: utf8_scan t4
                        else None :: utf8_scan t3
                    end
              end
        end
      else None :: utf8_scan t1
  end.

Definition replacement_char : N := 65533.

(** [b.decode('utf-8', errors='replace')]: never raises. *)
Definition decode_utf8_replace (b : bytes) : str :=
  map (fun o => match o with Some c => c | None => replacement_char end)
      (utf8_scan b).

(** [b.decode()]: strict UTF-8. *)
Definition decode_utf8 (b : bytes) : result str :=
  fold_right (fun o acc =>
                match o with
                | Some c => bind acc (fun t => Ok (c :: t))
                | None => Raise UnicodeDecodeError
                end)
             (Ok []) (utf8_scan b).

(** [s.encode()]: UTF-8; a surrogate code point cannot be encoded. *)
Fixpoint encode_utf8 (s : str) : result bytes :=
  match s with
  | [] => Ok []
  | c :: t =>
      if (55296 <=? c) && (c <=? 57343) then Raise UnicodeEncodeError
      else
        bind (encode_utf8 t) (fun rest =>
          Ok ((if c <? 128 then [c]
               else if c <? 2048 then
                 [192 + N.shiftr c 6; 128 + N.land c 63]
               else if c <? 65536 then
                 [224 + N.shiftr c 12; 128 + N.land (N.shiftr c 6) 63;
                  128 + N.land c 63]
               else
                 [240 + N.shiftr c 18; 128 + N.land (N.shiftr c 12) 63;
                  128 + N.land (N.shiftr c 6) 63; 128 + N.land c 63])
              ++ rest))
  end.

(** *** A few more methods of [str], [bytes] and [list] *)

(** [l[start:]] for any integer [start], negative ones counting from the
    end of the list. *)
Definition slice_from {A} (start : Z) (l : list A) : list A :=
  let n := Z.of_nat (length l) in
  let start := if (start <? 0)%Z then Z.max (start + n) 0 else Z.min start n in
  skipn (Z.to_nat start) l.

(** [b.split()] on bytes: the runs between ASCII whitespace. *)
Definition is_ascii_space (c : N) : bool :=
  (c =? 32) || ((9 <=? c) && (c <=? 13)).

Fixpoint split_ws_loop (b : bytes) (cur : bytes) : list bytes :=
  match b with
  | [] => if truthy cur then [cur] else []
  | c :: t =>
      if is_ascii_space c
      then (if truthy cur then [cur] else []) ++ split_ws_loop t []
      else split_ws_loop t (cur ++ [c])
  end.

Definition bytes_split (b : bytes) : list bytes := split_ws_loop b [].

(** [s.strip(c)] for a one-character set. *)
Fixpoint lstrip_char (c : N) (s : str) : str :=
  match s with
  | x :: t => if x =? c then lstrip_char c t else s
  | [] => []
  end.

Definition strip_char (c : N) (s : str) : str :=
  rev (lstrip_char c (rev (lstrip_char c s))).

(** [re.search] with the pattern of line 225 (a double quote, a group of one
    or more characters other than the double quote, a double quote, [$]):
    group 1 of the leftmost match, if any.  At a given start the pattern can
    match in one way only: a quote, the maximal run of characters other than
    quotes (not empty), a quote, and then the end of the string or a newline
    that ends the string. *)
Definition quote : N := 34.
Definition space : N := 32.
Definition newline : N := 10.

Fixpoint span_not_quote (s : str) : str * str :=
  match s with
  | [] => ([], [])
  | c :: t => if c =? quote then ([], s)
              else let (run, rest) := span_not_quote t in (c :: run, rest)
  end.

Definition at_end (s : str) : bool :=
  match s with
  | [] => true
  | [c] => c =? newline
  | _ => false
  end.

Definition match_quoted_here (s : str) : option str :=
  match s with
  | c :: t =>
      if c =? quote then
        let (run, rest) := span_not_quote t in
        match rest with
        | _ :: after => if truthy run && at_end after then Some run else None
        | [] => None
        end
      else None
  | [] => None
  end.

Fixpoint search_quoted (s : str) : option str :=
  match match_quoted_here s with
  | Some g => Some g
  | None => match s with
            | [] => None
            | _ :: t => search_quoted t
            end
  end.

(** [s.split(sep)] for the separator of line 240, a space followed by a
    double quote; [cur] is the piece being read. *)
Fixpoint split_loop (s : str) (cur : str) : list str :=
  match s with
  | [] => [cur]
  | c :: t =>
      match t with
      | d :: t' =>
          if (c =? space) && (d =? quote) then cur :: split_loop t' []
          else split_loop t (cur ++ [c])
      | [] => [cur ++ [c]]
      end
  end.

Definition split_space_quote (s : str) : list str := split_loop s [].

(** The values that the tools log and return: a plain string, the f-string
    [prefix + str(e)], the same followed by a newline and the traceback, an
    f-string ending in a list of names, or the [json.dumps] of a document. *)
Inductive json : Type :=
  | JStr (s : str)
  | JNum (n : nat)
  | JArr (l : list json)
  | JObj (fields : list (str * json)).

Inductive text : Type :=
  | T (s : str)
  | TExn (prefix : str) (e : exn)
  | TExnTrace (prefix : str) (e : exn)
  | TList (prefix : str) (l : list str)
  | TJson (j : json).

Fixpoint json_field (name : str) (fields : list (str * json)) : option json :=
  match fields with
  | [] => None
  | (k, v) :: rest => if str_eqb k name then Some v else json_field name rest
  end.

End Py.

Import Py.

(** ** The modified-UTF7 folder-name decoder *)

Definition amp : N := 38.
Definition dash : N := 45.
Definition comma : N := 44.
Definition slash : N := 47.
Definition equals : N := 61.

(** The body of the [try] block: pad [encoded] to a multiple of four
    characters, Base64-decode it and read the bytes as UTF-16BE. *)
Definition decode_payload (encoded : str) : result str :=
  let padding := (length encoded mod 4)%nat in
  let encoded :=
    if (0 <? padding)%nat then encoded ++ repeat equals (4 - padding)
    else encoded in
  bind (b64decode encoded) decode_utf16be.

(** [except (UnicodeDecodeError, binascii.Error)]: the two classes the
    handler names; anything else propagates. *)
Definition caught_by_fallback (e : exn) : bool :=
  match e with
  | UnicodeDecodeError | BinasciiError => true
  | _ => false
  end.

(** The [while i < len(s)] loop.  Each iteration advances [i], so [fuel]
    bounds the iterations left; with [len(s) <= fuel + i] the loop has
    exited before the fuel is used up (lemma [decode_loop_fuel]). *)
Fixpoint decode_loop (fuel : nat) (s : str) (i : nat) (res : str)
  : result str :=
  match fuel with
  | O => Ok res
  | S fuel' =>
      if (i <? length s)%nat then
        if (nth i s 0 =? amp) && (i + 1 <? length s)%nat then
          match find_from dash s (i + 1) with
          | None => decode_loop fuel' s (i + 1) (res ++ [amp])
          | Some j =>
              if (j =? i + 1)%nat then
                decode_loop fuel' s (i + 2) (res ++ [amp])
              else
                let encoded := replace_char comma slash (slice s (i + 1) j) in
                match decode_payload encoded with
                | Ok decoded_text =>
                    decode_loop fuel' s (j + 1) (res ++ decoded_text)
                | Raise e =>
                    if caught_by_fallback e then
                      decode_loop fuel' s (j + 1)
                        (res ++ [amp] ++ slice s (i + 1) j ++ [dash])
                    else Raise e
                end
          end
        else decode_loop fuel' s (i + 1) (res ++ [nth i s 0])
      else Ok res
  end.

Definition decode_modified_utf7 (s : str) : result str :=
  if negb (truthy s) then Ok s
  else decode_loop (length s) s 0 [].

(** ** The header text decoder *)

(** One pair of [email.header.decode_header]'s result: the value is bytes
    or text (or [None], should a header yield no word at all), the encoding
    a charset name or [None]. *)
Inductive hvalue : Type :=
  | VBytes (b : bytes)
  | VStr (s : str)
  | VNone.

Definition segment : Type := hvalue * option str.

(** A parsed message, as [email.message_from_bytes] hands it over: the
    headers the tools read ([msg.get(name)], [None] when absent), the content
    type, and either the decoded payload of a single part
    ([get_payload(decode=True)], possibly [None]) or the list of sub-parts. *)
Record headers : Type := {
  subject : option str;
  from : option str;
  to : option str;
  date : option str;
  content_disposition : option str;
  content_type : str
}.

Inductive message : Type :=
  | Leaf (h : headers) (payload : option bytes)
  | Multipart (h : headers) (parts : list message).

(** The library functions that the decoders call and whose code is outside
    the repository and too large to embed: the full case mappings behind
    [str.upper] and [str.lower] for text outside ASCII, the codec registry
    behind [bytes.decode(encoding)], and [email.message_from_bytes]. *)
Class Library : Type := {
  unicode_upper : N -> str;
  unicode_lower : str -> str;
  codec_decode : str -> bytes -> result str;
  message_from_bytes : bytes -> message
}.

(** [str.upper()] maps each character on its own: an ASCII letter to its
    capital, a character outside ASCII through the library (one to three
    code points).  [str.lower()] depends on the neighbours of a character
    outside ASCII: ASCII text is mapped letter by letter, other text as a
    whole through the library. *)
Definition ascii_upper (c : N) : N :=
  if (97 <=? c) && (c <=? 122) then c - 32 else c.

Definition ascii_lower (c : N) : N :=
  if (65 <=? c) && (c <=? 90) then c + 32 else c.

Definition upper {lib : Library} (s : str) : str :=
  flat_map (fun c => if c <? 128 then [ascii_upper c] else unicode_upper c) s.

Definition lower {lib : Library} (s : str) : str :=
  if is_ascii s then map ascii_lower s else unicode_lower s.

(** ** [email.header.decode_header] on a string

    The library function that [decode_email_header] calls first, after the
    code of CPython 3.11: it looks for encoded words
    [=?charset?encoding?text?=], splits each line at them, drops the white
    space between two encoded words, undoes the Q or Base64 encoding of each
    word, and joins neighbours of the same charset.  A Base64 word that
    [binascii] rejects makes it raise [HeaderParseError]. *)

Definition eq_sign : N := 61.
Definition question : N := 63.

(** The tail of the pattern, [(.*?)\?=]: the shortest run of characters
    other than the newline that is followed by [?=]. *)
Fixpoint ecre_encoded (s : str) : option (str * nat) :=
  match s with
  | [] => None
  | c :: t =>
      match (if c =? question
             then match t with
                  | d :: _ => d =? eq_sign
                  | [] => false
                  end
             else false) with
      | true => Some ([], 2%nat)
      | false =>
          if c =? newline then None
          else match ecre_encoded t with
               | Some (encoded, n) => Some (c :: encoded, S n)
               | None => None
               end
      end
  end.

(** The charset, [([^?]*?)\?]: the run up to the next question mark. *)
Fixpoint ecre_charset (s : str) : option (str * str) :=
  match s with
  | [] => None
  | c :: t =>
      if c =? question then Some ([], t)
      else match ecre_charset t with
           | Some (charset, rest) => Some (c :: charset, rest)
           | None => None
           end
  end.

Definition is_qb (c : N) : bool :=
  (c =? 113) || (c =? 81) || (c =? 98) || (c =? 66).

(** The pattern [ecre] anchored at the head of [s]: the three groups and the
    number of characters matched. *)
Definition ecre_match_here (s : str) : option (str * N * str * nat) :=
  match s with
  | c1 :: c2 :: t =>
      if (c1 =? eq_sign) && (c2 =? question) then
        match ecre_charset t with
        | Some (charset, encoding :: q :: rest) =>
            if is_qb encoding && (q =? question) then
              match ecre_encoded rest with
              | Some (encoded, n) =>
                  Some (charset, encoding, encoded,
                        (4 + length charset + 1 + n)%nat)
              | None => None
              end
            else None
        | _ => None
        end
      else None
  | _ => None
  end.

Fixpoint ecre_search (s : str) : bool :=
  match ecre_match_here s with
  | Some _ => true
  | None => match s with
            | [] => false
            | _ :: t => ecre_search t
            end
  end.

(** [ecre.split(line)]: the text before each match with the groups of the
    match, and the text after the last match.  [skip] counts the characters
    of a match still to pass, [cur] is the text read since the last match. *)
Fixpoint ecre_split_loop (s : str) (skip : nat) (cur : str)
  : list (str * (str * N * str)) * str :=
  match s with
  | [] => ([], cur)
  | c :: t =>
      match skip with
      | S k => ecre_split_loop t k cur
      | O =>
          match ecre_match_here s with
          | Some (charset, encoding, encoded, n) =>
              let (matches, last) := ecre_split_loop t (n - 1) [] in
              ((cur, (charset, encoding, encoded)) :: matches, last)
          | None => ecre_split_loop t 0 (cur ++ [c])
          end
      end
  end.

Definition ecre_split (line : str) : list (str * (str * N * str)) * str :=
  ecre_split_loop line 0 [].

(** [str.splitlines()]. *)
Definition is_linebreak (c : N) : bool :=
  ((10 <=? c) && (c <=? 13)) || ((28 <=? c) && (c <=? 30))
  || (c =? 133) || (c =? 8232) || (c =? 8233).

Fixpoint splitlines_loop (s : str) (cur : str) : list str :=
  match s with
  | [] => if truthy cur then [cur] else []
  | c :: t =>
      if is_linebreak c then
        cur :: match t with
               | d :: t' =>
                   if (c =? 13) && (d =? 10) then splitlines_loop t' []
                   else splitlines_loop t []
               | [] => []
               end
      else splitlines_loop t (cur ++ [c])
  end.

Definition splitlines (s : str) : list str := splitlines_loop s [].

(** [str.isspace()] and [str.lstrip()]. *)
Definition is_space_char (c : N) : bool :=
  ((9 <=? c) && (c <=? 13)) || ((28 <=? c) && (c <=? 32))
  || (c =? 133) || (c =? 160) || (c =? 5760)
  || ((8192 <=? c) && (c <=? 8202))
  || (c =? 8232) || (c =? 8233) || (c =? 8239) || (c =? 8287)
  || (c =? 12288).

Definition isspace (s : str) : bool := truthy s && forallb is_space_char s.

Fixpoint lstrip (s : str) : str :=
  match s with
  | c :: t => if is_space_char c then lstrip t else s
  | [] => []
  end.

(** A word of the header: its text, with the encoding and the charset of an
    encoded word. *)
Definition word : Type := str * option (N * str).

(** The words of one line (the [while parts] loop). *)
Definition line_words {lib : Library} (line : str) : list word :=
  let (matches, last) := ecre_split line in
  let unencoded (first : bool) (u : str) : list word :=
    let u := if first then lstrip u else u in
    if truthy u then [(u, None)] else [] in
  let fix go (first : bool) (ms : list (str * (str * N * str))) : list word :=
    match ms with
    | [] => unencoded first last
    | (u, (charset, encoding, encoded)) :: rest =>
        unencoded first u
        ++ (encoded, Some (ascii_lower encoding, lower charset))
        :: go false rest
    end in
  go true matches.

Definition is_encoded (w : word) : bool :=
  match snd w with Some _ => true | None => false end.

(** The words left after the [droplist] pass: the word at index [n - 1] goes
    when it is white space and the words at [n] and [n - 2] are encoded
    words.  [before] is the word preceding the head of the list. *)
Fixpoint drop_between (before : option word) (ws : list word) : list word :=
  match ws with
  | [] => []
  | w :: rest =>
      let dropped :=
        match before, rest with
        | Some b, next :: _ => is_encoded next && is_encoded b && isspace (fst w)
        | _, _ => false
        end in
      (if dropped then [] else [w]) ++ drop_between (Some w) rest
  end.

(** [email.quoprimime.header_decode]. *)
Definition hex_value (c : N) : option N :=
  if (48 <=? c) && (c <=? 57) then Some (c - 48)
  else if (97 <=? c) && (c <=? 102) then Some (c - 87)
  else if (65 <=? c) && (c <=? 70) then Some (c - 55)
  else None.

Fixpoint header_decode (s : str) : str :=
  match s with
  | [] => []
  | c :: t =>
      if c =? eq_sign then
        match t with
        | h1 :: h2 :: t' =>
            match hex_value h1, hex_value h2 with
            | Some a, Some b => (16 * a + b) :: header_decode t'
            | _, _ => c :: header_decode t
            end
        | _ => c :: header_decode t
        end
      else (if c =? 95 then space else c) :: header_decode t
  end.

(** [s.encode('raw-unicode-escape')]. *)
Definition hex_digit (n : N) : N := if n <? 10 then 48 + n else 87 + n.

Definition hex_digits (count : nat) (c : N) : bytes :=
  map (fun i => hex_digit (N.land (N.shiftr c (4 * N.of_nat i)) 15))
      (rev (seq 0 count)).

Definition raw_unicode_escape (s : str) : bytes :=
  flat_map (fun c => if c <? 256 then [c]
                     else if c <? 65536 then [92; 117] ++ hex_digits 4 c
                     else [92; 85] ++ hex_digits 8 c) s.

(** The decoding of one word: text stays text, a Q word becomes text, a B
    word becomes bytes or raises. *)
Definition decode_word (w : word) : result (hvalue * option str) :=
  match w with
  | (encoded_string, None) => Ok (VStr encoded_string, None)
  | (encoded_string, Some (encoding, charset)) =>
      if encoding =? 113 then
        Ok (VStr (header_decode encoded_string), Some charset)
      else
        let paderr := (length encoded_string mod 4)%nat in
        let encoded_string :=
          if (0 <? paderr)%nat
          then encoded_string ++ repeat eq_sign (4 - paderr)
          else encoded_string in
        match (if truthy encoded_string
               then a2b_base64 (raw_unicode_escape encoded_string)
               else Ok []) with
        | Ok decoded => Ok (VBytes decoded, Some charset)
        | Raise BinasciiError => Raise HeaderParseError
        | Raise e => Raise e
        end
  end.

Fixpoint decode_words (ws : list word) : result (list (hvalue * option str)) :=
  match ws with
  | [] => Ok []
  | w :: rest =>
      bind (decode_word w) (fun d =>
      bind (decode_words rest) (fun ds => Ok (d :: ds)))
  end.

Definition option_str_eqb (a b : option str) : bool :=
  match a, b with
  | Some x, Some y => str_eqb x y
  | None, None => true
  | _, _ => false
  end.

(** The last loop: every word as bytes, neighbours of one charset joined
    (with a space between two unencoded ones). *)
Fixpoint collapse (ws : list (hvalue * option str))
                  (last : option (bytes * option str)) : list segment :=
  match ws with
  | [] =>
      match last with
      | Some (last_word, last_charset) => [(VBytes last_word, last_charset)]
      | None => [(VNone, None)]
      end
  | (value, charset) :: rest =>
      let w := match value with
               | VStr s => raw_unicode_escape s
               | VBytes b => b
               | VNone => []
               end in
      match last with
      | None => collapse rest (Some (w, charset))
      | Some (last_word, last_charset) =>
          if negb (option_str_eqb charset last_charset) then
            (VBytes last_word, last_charset)
            :: collapse rest (Some (w, charset))
          else
            match last_charset with
            | None => collapse rest (Some (last_word ++ [space] ++ w, None))
            | Some _ => collapse rest (Some (last_word ++ w, last_charset))
            end
      end
  end.

Definition decode_header {lib : Library} (header : str)
  : result (list segment) :=
  if negb (ecre_search header) then Ok [(VStr header, None)]
  else
    let words := flat_map line_words (splitlines header) in
    let words := drop_between None words in
    bind (decode_words words) (fun decoded_words =>
      Ok (collapse decoded_words None)).

Section Decoders.

Context {lib : Library}.

(** The body of the [for value, encoding in decoded_headers] loop: the text
    that one pair adds to [header_text].  The bare [except] catches whatever
    the named codec raises. *)
Definition decode_value (value : hvalue) (encoding : option str) : str :=
  match value with
  | VBytes b =>
      let attempt :=
        match encoding with
        | Some enc =>
            if truthy enc then codec_decode enc b
            else Ok (decode_utf8_replace b)
        | None => Ok (decode_utf8_replace b)
        end in
      match attempt with
      | Ok t => t
      | Raise _ => decode_utf8_replace b
      end
  | VStr s => s
  | VNone => lit "None"
  end.

Definition decode_email_header (header : str) : result str :=
  bind (decode_header header) (fun decoded_headers =>
    Ok (fold_left (fun header_text p => header_text ++ decode_value (fst p) (snd p))
                  decoded_headers [])).

(** ** The MIME body extractor *)

Definition is_multipart (msg : message) : bool :=
  match msg with Multipart _ _ => true | Leaf _ _ => false end.

Definition msg_headers (msg : message) : headers :=
  match msg with Leaf h _ | Multipart h _ => h end.

Definition get_content_type (msg : message) : str :=
  content_type (msg_headers msg).

(** [part.get_payload(decode=True)]: [None] for a multipart part. *)
Definition get_payload_decoded (msg : message) : option bytes :=
  match msg with
  | Leaf _ payload => payload
  | Multipart _ _ => None
  end.

(** [msg.walk()]: the message itself, then its parts, depth first. *)
Fixpoint walk (msg : message) : list message :=
  msg ::
  match msg with
  | Leaf _ _ => []
  | Multipart _ parts => flat_map walk parts
  end.

(** [str(x)] for an optional header: the text ['None'] when it is absent. *)
Definition str_of_optional (o : option str) : str :=
  match o with Some s => s | None => lit "None" end.

(** One iteration of [for part in msg.walk()], on the pair
    ([text_content], [html_content]). *)
Definition body_step (acc : str * str) (part : message) : str * str :=
  let content_type := get_content_type part in
  let content_disposition :=
    str_of_optional (content_disposition (msg_headers part)) in
  if contains (lit "attachment") content_disposition then acc
  else
    match get_payload_decoded part with
    | Some body =>
        if truthy body then
          if str_eqb content_type (lit "text/plain")
          then (decode_utf8_replace body, snd acc)
          else if str_eqb content_type (lit "text/html")
          then (fst acc, decode_utf8_replace body)
          else acc
        else acc
    | None => acc
    end.

Definition could_not_decode : str := lit "Could not decode email body".

Definition get_email_body (msg : message) : str :=
  if is_multipart msg then
    let '(text_content, html_content) := fold_left body_step (walk msg) ([], []) in
    if truthy text_content then text_content else html_content
  else
    match get_payload_decoded msg with
    | Some payload => decode_utf8_replace payload
    | None => could_not_decode
    end.

End Decoders.

(** ** The mailbox server and the session *)

(** What [imaplib] returns for a command: a status and a list of data items,
    each [None], a bytes object or a pair of bytes objects. *)
Inductive item : Type :=
  | INone
  | IBytes (b : bytes)
  | ITuple (a b : bytes).

Record reply : Type := { status : str; data : list item }.

(** The commands the modelled tools send, named after the [imaplib]
    methods. *)
Inductive verb : Type :=
  | VNoop
  | VLogin (user pass : str)
  | VList
  | VSelect (folder : str)
  | VSearch (criteria : str)
  | VFetch (message_set : bytes).

(** The outside world: the server behind the connection, answering each
    command with a reply or an exception, the constructor
    [imaplib.IMAP4_SSL(host, port)], and the process environment. *)
Class Mailbox : Type := {
  Server : Type;
  Conn : Type;
  imap_open : Server -> str -> Z -> Server * result Conn;
  imap_call : Server -> Conn -> verb -> Server * result reply;
  environ : str -> option str
}.

(** What an observer sees of a run: connections opened, commands sent, and
    the messages passed to [ctx.info] and [ctx.error]. *)
Inductive event : Type :=
  | Opened (host : str) (port : Z)
  | Called (v : verb)
  | CtxInfo (m : text)
  | CtxError (m : text).

Section Session.

Context {mbox : Mailbox}.

Record EmailConfig : Type := {
  username : str;
  password : str;
  imap_server : str;
  imap_port : Z;
  connection : option Conn
}.

(** The global [email_config], the server, and the events so far. *)
Record Session : Type := {
  email_config : option EmailConfig;
  server : Server;
  trace : list event
}.

(** Computations on the session that may raise. *)
Definition M (A : Type) : Type := Session -> result A * Session.

Definition ret {A} (v : A) : M A := fun st => (Ok v, st).

Definition lift {A} (r : result A) : M A := fun st => (r, st).

Definition mbind {A B} (m : M A) (k : A -> M B) : M B :=
  fun st =>
    match m st with
    | (Ok v, st') => k v st'
    | (Raise e, st') => (Raise e, st')
    end.

(** [try: m except <classes>: handler]. *)
Definition try_except {A} (m : M A) (catches : exn -> bool)
                      (handler : exn -> M A) : M A :=
  fun st =>
    match m st with
    | (Ok v, st') => (Ok v, st')
    | (Raise e, st') => if catches e then handler e st' else (Raise e, st')
    end.

Definition emit (ev : event) : M unit :=
  fun st => (Ok tt, {| email_config := email_config st;
                       server := server st;
                       trace := trace st ++ [ev] |}).

(** [ctx.info(m)] and [ctx.error(m)] on the [Context] that the MCP server
    hands to a tool: the message is recorded and the call returns.  A tool
    called directly with its default [ctx=None] is outside this model: there
    the call itself raises [AttributeError]. *)
Definition ctx_info (m : text) : M unit := emit (CtxInfo m).
Definition ctx_error (m : text) : M unit := emit (CtxError m).

Definition set_email_config (cfg : EmailConfig) : M unit :=
  fun st => (Ok tt, {| email_config := Some cfg;
                       server := server st;
                       trace := trace st |}).

Definition call (conn : Conn) (v : verb) : M reply :=
  fun st =>
    let (srv, r) := imap_call (server st) conn v in
    (r, {| email_config := email_config st;
           server := srv;
           trace := trace st ++ [Called v] |}).

Definition open_connection (host : str) (port : Z) : M Conn :=
  fun st =>
    let (srv, r) := imap_open (server st) host port in
    (r, {| email_config := email_config st;
           server := srv;
           trace := trace st ++ [Opened host port] |}).

(** [email_config.connection.<verb>(...)]: the attribute lookups fail on
    [None]. *)
Definition get_connection : M Conn :=
  fun st =>
    match email_config st with
    | Some cfg =>
        match connection cfg with
        | Some conn => (Ok conn, st)
        | None => (Raise AttributeError, st)
        end
    | None => (Raise AttributeError, st)
    end.

End Session.

Declare Scope session_scope.
Delimit Scope session_scope with session.
Notation "x <- m ;; k" := (mbind m (fun x => k))
  (at level 61, m at next level, right associativity) : session_scope.
Notation "m ;; k" := (mbind m (fun _ => k))
  (at level 61, right associativity) : session_scope.
Local Open Scope session_scope.

Section Tools.

Context {lib : Library} {mbox : Mailbox}.

Fixpoint for_each {A B} (body : B -> A -> M B) (l : list A) (acc : B) : M B :=
  match l with
  | [] => ret acc
  | x :: rest => acc' <- body acc x ;; for_each body rest acc'
  end.

Definition caught_all (e : exn) : bool := true.

Definition status_ok (r : reply) : bool := str_eqb (status r) (lit "OK").

Definition default_server : str := lit "imap.mail.yahoo.co.jp".
Definition default_port : Z := 993%Z.

(** ** The connection manager *)

(** The first block of [connect_to_email]: [true] when it runs
    [return True], [false] when control falls through to the login. *)
Definition probe : M bool :=
  fun st =>
    match email_config st with
    | Some cfg =>
        match connection cfg with
        | Some conn =>
            try_except
              (r <- call conn VNoop ;; ret (status_ok r))
              caught_all
              (fun _ => ret false) st
        | None => (Ok false, st)
        end
    | None => (Ok false, st)
    end.

Definition optional_falsy (o : option str) : bool :=
  match o with Some s => negb (truthy s) | None => true end.

Definition login : M bool :=
  try_except
    (let username := environ (lit "YAHOO_EMAIL") in
     let password := environ (lit "YAHOO_PASSWORD") in
     if optional_falsy username || optional_falsy password then
       ctx_error (T (lit "Email credentials not found. Set YAHOO_EMAIL and YAHOO_PASSWORD environment variables.")) ;;
       ret false
     else
       let username := str_of_optional username in
       let password := str_of_optional password in
       fun st =>
         let host := match email_config st with
                     | Some cfg => imap_server cfg
                     | None => default_server
                     end in
         let port := match email_config st with
                     | Some cfg => imap_port cfg
                     | None => default_port
                     end in
         (conn <- open_connection host port ;;
          call conn (VLogin username password) ;;
          set_email_config {| username := username;
                              password := password;
                              imap_server := default_server;
                              imap_port := default_port;
                              connection := Some conn |} ;;
          ctx_info (T (lit "Successfully connected to " ++ username)) ;;
          ret true) st)
    is_Exception
    (fun e =>
       ctx_error (TExn (lit "Failed to connect to Yahoo Mail: ") e) ;;
       ret false).

Definition connect_to_email : M bool :=
  alive <- probe ;;
  if alive then ret true else login.

(** ** Listing the folders *)

(** [folder.decode('utf-8', errors='replace')]: only bytes have the
    method. *)
Definition folder_text (folder : item) : result str :=
  match folder with
  | IBytes b => Ok (decode_utf8_replace b)
  | INone | ITuple _ _ => Raise AttributeError
  end.

(** One iteration of [for folder in folders], on [folder_list]. *)
Definition list_folders_step (folder_list : list str) (folder : item)
  : M (list str) :=
  try_except
    (folder_str <- lift (folder_text folder) ;;
     ctx_info (T (lit "Raw folder: " ++ folder_str)) ;;
     match search_quoted folder_str with
     | Some folder_name =>
         ctx_info (T (lit "Before decoding: " ++ folder_name)) ;;
         decoded_name <- lift (decode_modified_utf7 folder_name) ;;
         ctx_info (T (lit "After decoding: " ++ decoded_name)) ;;
         ret (folder_list ++ [decoded_name])
     | None =>
         let folder_parts := split_space_quote folder_str in
         if (2 <=? length folder_parts)%nat then
           let folder_name := strip_char quote (last folder_parts []) in
           decoded_name <- lift (decode_modified_utf7 folder_name) ;;
           ret (folder_list ++ [decoded_name])
         else
           ctx_error (T (lit "Could not parse folder structure: " ++ folder_str)) ;;
           ret folder_list
     end)
    is_Exception
    (fun e =>
       ctx_error (TExnTrace (lit "Error processing folder: ") e) ;;
       ret folder_list).

Definition connect_failed : text := T (lit "Failed to connect to Yahoo Mail").

Definition list_folders : M text :=
  connected <- connect_to_email ;;
  if negb connected then ret connect_failed
  else
    try_except
      (conn <- get_connection ;;
       r <- call conn VList ;;
       if negb (status_ok r)
       then ret (T (lit "Failed to retrieve folders: " ++ status r))
       else
         folder_list <- for_each list_folders_step (data r) [] ;;
         ctx_info (TList (lit "Final folder list: ") folder_list) ;;
         ret (TJson (JObj [(lit "folders", JArr (map JStr folder_list))])))
      is_Exception
      (fun e =>
         ctx_error (TExnTrace (lit "Error listing folders: ") e) ;;
         ret (TExn (lit "Error listing folders: ") e)).

(** ** Searching *)

Definition keywords : list str :=
  map lit ["FROM"; "TO"; "SUBJECT"; "BODY"; "TEXT"; "SINCE"; "BEFORE"; "ON"]%string.

(** Lines 280-283: the criteria sent to the server. *)
Definition imap_query (query : str) : str :=
  if negb (existsb (fun x => contains x (upper query)) keywords)
  then lit "ALL"
  else query.

(** Line 291, [messages[0].split()]. *)
Definition search_ids (messages : list item) : result (list bytes) :=
  match messages with
  | [] => Raise IndexError
  | IBytes b :: _ => Ok (bytes_split b)
  | INone :: _ | ITuple _ _ :: _ => Raise AttributeError
  end.

(** Line 294, [message_ids[-min(limit, len(message_ids)):]]. *)
Definition limit_message_ids (limit : Z) (message_ids : list bytes)
  : list bytes :=
  slice_from (- Z.min limit (Z.of_nat (length message_ids))) message_ids.

(** [email.message_from_bytes(msg_data[0][1])]: the second component of the
    first item when that item is a pair.  Indexing [None] raises
    [TypeError]; indexing bytes gives an integer (or [IndexError]), which the
    parser rejects with [AttributeError]. *)
Definition fetched_message (msg_data : list item) : result message :=
  match msg_data with
  | [] => Raise IndexError
  | ITuple _ raw_email :: _ => Ok (message_from_bytes raw_email)
  | INone :: _ => Raise TypeError
  | IBytes b :: _ =>
      if (length b <? 2)%nat then Raise IndexError else Raise AttributeError
  end.

(** [msg.get(name, default)]. *)
Definition get_or (field : option str) (default : string) : str :=
  match field with Some v => v | None => lit default end.

(** One iteration of [for msg_id in message_ids], on [results]. *)
Definition search_step (results : list json) (msg_id : bytes)
  : M (list json) :=
  conn <- get_connection ;;
  r <- call conn (VFetch msg_id) ;;
  if negb (status_ok r) then ret results
  else
    msg <- lift (fetched_message (data r)) ;;
    let h := msg_headers msg in
    subject <- lift (decode_email_header (get_or (subject h) "No Subject")) ;;
    from_addr <- lift (decode_email_header (get_or (from h) "Unknown")) ;;
    date <- lift (decode_email_header (get_or (date h) "Unknown")) ;;
    id <- lift (decode_utf8 msg_id) ;;
    ret (results ++ [JObj [(lit "id", JStr id);
                           (lit "subject", JStr subject);
                           (lit "from", JStr from_addr);
                           (lit "date", JStr date)]]).

Definition no_emails_found (query : str) : text :=
  T (lit "No emails found matching query: " ++ query).

(** Lines 293-320, once [message_ids] is known: limit, fetch, report. *)
Definition collect_results (query folder : str) (limit : Z)
                           (message_ids : list bytes) : M text :=
  let message_ids := limit_message_ids limit message_ids in
  results <- for_each search_step message_ids [] ;;
  if negb (match results with [] => false | _ => true end)
  then ret (no_emails_found query)
  else ret (TJson (JObj [(lit "results", JArr results);
                         (lit "count", JNum (length results));
                         (lit "folder", JStr folder)])).

Definition search_emails (query folder : str) (limit : Z) : M text :=
  connected <- connect_to_email ;;
  if negb connected then ret connect_failed
  else
    try_except
      (conn <- get_connection ;;
       r <- call conn (VSelect folder) ;;
       if negb (status_ok r)
       then ret (T (lit "Failed to select folder " ++ folder))
       else
         conn <- get_connection ;;
         r <- call conn (VSearch (imap_query query)) ;;
         if negb (status_ok r)
         then ret (T (lit "Search failed: " ++ status r))
         else
           message_ids <- lift (search_ids (data r)) ;;
           collect_results query folder limit message_ids)
      is_Exception
      (fun e =>
         ctx_error (TExnTrace (lit "Error searching emails: ") e) ;;
         ret (TExn (lit "Error searching emails: ") e)).

(** ** Reading one message *)

(** Line 365: [body[:2000]], followed by three dots when [len(body) > 2000]
    and by the empty string otherwise. *)
Definition body_field (body : str) : str :=
  firstn 2000 body ++ (if (2000 <? length body)%nat then lit "..." else []).

Definition read_email (email_id folder : str) : M text :=
  connected <- connect_to_email ;;
  if negb connected then ret connect_failed
  else
    try_except
      (conn <- get_connection ;;
       r <- call conn (VSelect folder) ;;
       if negb (status_ok r)
       then ret (T (lit "Failed to select folder " ++ folder))
       else
         conn <- get_connection ;;
         message_set <- lift (encode_utf8 email_id) ;;
         r <- call conn (VFetch message_set) ;;
         if negb (status_ok r)
         then ret (T (lit "Failed to fetch email with ID " ++ email_id))
         else
           msg <- lift (fetched_message (data r)) ;;
           let h := msg_headers msg in
           subject <- lift (decode_email_header (get_or (subject h) "No Subject")) ;;
           from_addr <- lift (decode_email_header (get_or (from h) "Unknown")) ;;
           to_addr <- lift (decode_email_header (get_or (to h) "Unknown")) ;;
           date <- lift (decode_email_header (get_or (date h) "Unknown")) ;;
           let body := get_email_body msg in
           ret (TJson (JObj [(lit "id", JStr email_id);
                             (lit "subject", JStr subject);
                             (lit "from", JStr from_addr);
                             (lit "to", JStr to_addr);
                             (lit "date", JStr date);
                             (lit "body", JStr (body_field body))])))
      is_Exception
      (fun e =>
         ctx_error (TExnTrace (lit "Error reading email: ") e) ;;
         ret (TExn (lit "Error reading email: ") e)).

End Tools.

(** ** Counting the unread messages *)

Section Counting.

Context {lib : Library} {mbox : Mailbox}.

Definition get_unread_count (folder : str) : M text :=
  connected <- connect_to_email ;;
  if negb connected then ret connect_failed
  else
    try_except
      (conn <- get_connection ;;
       r <- call conn (VSelect folder) ;;
       if negb (status_ok r)
       then ret (T (lit "Failed to select folder " ++ folder))
       else
         conn <- get_connection ;;
         r <- call conn (VSearch (lit "UNSEEN")) ;;
         if negb (status_ok r)
         then ret (T (lit "Failed to search for unread emails: " ++ status r))
         else
           message_ids <- lift (search_ids (data r)) ;;
           let unread_count := length message_ids in
           ret (TJson (JObj [(lit "folder", JStr folder);
                             (lit "unread_count", JNum unread_count)])))
      is_Exception
      (fun e =>
         ctx_error (TExnTrace (lit "Error getting unread count: ") e) ;;
         ret (TExn (lit "Error getting unread count: ") e)).

End Counting.

(** ** The tools that change the mailbox, and the shutdown

    [mark_as_read], [mark_as_unread], [move_email] and [delete_email] send
    STORE, COPY and EXPUNGE, and [server_lifespan] sends LOGOUT when the
    server stops.  The server answers these commands too; the session keeps
    a second log for them, each entry with the number of events of [trace]
    that came before it, so that the order of all that happened is kept. *)

Inductive flag_verb : Type :=
  | VStore (message_set : bytes) (command flags : str)
  | VCopy (message_set : bytes) (new_mailbox : str)
  | VExpunge
  | VLogout.

Class FlagMailbox (mbox : Mailbox) : Type := {
  imap_flag_call : Server -> Conn -> flag_verb -> Server * result reply
}.

Section FlagSessions.

Context {mbox : Mailbox} {fbox : FlagMailbox mbox}.

Record FlagSession : Type := {
  base : Session;
  flag_log : list (nat * flag_verb)
}.

Definition F (A : Type) : Type := FlagSession -> result A * FlagSession.

Definition fret {A} (v : A) : F A := fun fs => (Ok v, fs).

Definition flift {A} (r : result A) : F A := fun fs => (r, fs).

Definition fbind {A B} (m : F A) (k : A -> F B) : F B :=
  fun fs =>
    match m fs with
    | (Ok v, fs') => k v fs'
    | (Raise e, fs') => (Raise e, fs')
    end.

Definition ftry_except {A} (m : F A) (catches : exn -> bool)
                       (handler : exn -> F A) : F A :=
  fun fs =>
    match m fs with
    | (Ok v, fs') => (Ok v, fs')
    | (Raise e, fs') => if catches e then handler e fs' else (Raise e, fs')
    end.

(** A computation of the plain session, run inside the larger one. *)
Definition on_base {A} (m : M A) : F A :=
  fun fs =>
    let (r, st) := m (base fs) in
    (r, {| base := st; flag_log := flag_log fs |}).

Definition flag_call (conn : Conn) (v : flag_verb) : F reply :=
  fun fs =>
    let st := base fs in
    let (srv, r) := imap_flag_call (server st) conn v in
    (r, {| base := {| email_config := email_config st;
                      server := srv;
                      trace := trace st |};
           flag_log := flag_log fs ++ [(length (trace st), v)] |}).

End FlagSessions.

Declare Scope flag_scope.
Delimit Scope flag_scope with flag.
Notation "x <- m ;; k" := (fbind m (fun x => k))
  (at level 61, m at next level, right associativity) : flag_scope.
Notation "m ;; k" := (fbind m (fun _ => k))
  (at level 61, right associativity) : flag_scope.

Section FlagTools.

Context {lib : Library} {mbox : Mailbox} {fbox : FlagMailbox mbox}.

Local Open Scope flag_scope.

Definition seen : str := lit "\Seen".
Definition deleted : str := lit "\Deleted".
Definition add_flags : str := lit "+FLAGS".
Definition remove_flags : str := lit "-FLAGS".

Definition mark_as_read (email_id folder : str) : F text :=
  connected <- on_base connect_to_email ;;
  if negb connected then fret connect_failed
  else
    ftry_except
      (conn <- on_base get_connection ;;
       r <- on_base (call conn (VSelect folder)) ;;
       if negb (status_ok r)
       then fret (T (lit "Failed to select folder " ++ folder))
       else
         conn <- on_base get_connection ;;
         message_set <- flift (encode_utf8 email_id) ;;
         r <- flag_call conn (VStore message_set add_flags seen) ;;
         if negb (status_ok r)
         then fret (T (lit "Failed to mark email as read: " ++ status r))
         else fret (T (lit "Email " ++ email_id ++ lit " marked as read")))
      is_Exception
      (fun e =>
         on_base (ctx_error (TExnTrace (lit "Error marking email as read: ") e)) ;;
         fret (TExn (lit "Error marking email as read: ") e)).

Definition mark_as_unread (email_id folder : str) : F text :=
  connected <- on_base connect_to_email ;;
  if negb connected then fret connect_failed
  else
    ftry_except
      (conn <- on_base get_connection ;;
       r <- on_base (call conn (VSelect folder)) ;;
       if negb (status_ok r)
       then fret (T (lit "Failed to select folder " ++ folder))
       else
         conn <- on_base get_connection ;;
         message_set <- flift (encode_utf8 email_id) ;;
         r <- flag_call conn (VStore message_set remove_flags seen) ;;
         if negb (status_ok r)
         then fret (T (lit "Failed to mark email as unread: " ++ status r))
         else fret (T (lit "Email " ++ email_id ++ lit " marked as unread")))
      is_Exception
      (fun e =>
         on_base (ctx_error (TExnTrace (lit "Error marking email as unread: ") e)) ;;
         fret (TExn (lit "Error marking email as unread: ") e)).

Definition move_email (email_id source_folder destination_folder : str)
  : F text :=
  connected <- on_base connect_to_email ;;
  if negb connected then fret connect_failed
  else
    ftry_except
      (conn <- on_base get_connection ;;
       r <- on_base (call conn (VSelect source_folder)) ;;
       if negb (status_ok r)
       then fret (T (lit "Failed to select folder " ++ source_folder))
       else
         conn <- on_base get_connection ;;
         message_set <- flift (encode_utf8 email_id) ;;
         r <- flag_call conn (VCopy message_set destination_folder) ;;
         if negb (status_ok r)
         then fret (T (lit "Failed to copy email to " ++ destination_folder
                       ++ lit ": " ++ status r))
         else
           conn <- on_base get_connection ;;
           message_set <- flift (encode_utf8 email_id) ;;
           r <- flag_call conn (VStore message_set add_flags deleted) ;;
           if negb (status_ok r)
           then fret (T (lit "Failed to mark email for deletion: " ++ status r))
           else
             conn <- on_base get_connection ;;
             flag_call conn VExpunge ;;
             fret (T (lit "Email " ++ email_id ++ lit " moved from "
                      ++ source_folder ++ lit " to " ++ destination_folder)))
      is_Exception
      (fun e =>
         on_base (ctx_error (TExnTrace (lit "Error moving email: ") e)) ;;
         fret (TExn (lit "Error moving email: ") e)).

Definition delete_email (email_id folder : str) : F text :=
  connected <- on_base connect_to_email ;;
  if negb connected then fret connect_failed
  else
    ftry_except
      (conn <- on_base get_connection ;;
       r <- on_base (call conn (VSelect folder)) ;;
       if negb (status_ok r)
       then fret (T (lit "Failed to select folder " ++ folder))
       else
         conn <- on_base get_connection ;;
         message_set <- flift (encode_utf8 email_id) ;;
         r <- flag_call conn (VStore message_set add_flags deleted) ;;
         if negb (status_ok r)
         then fret (T (lit "Failed to mark email for deletion: " ++ status r))
         else
           conn <- on_base get_connection ;;
           flag_call conn VExpunge ;;
           fret (T (lit "Email " ++ email_id ++ lit " deleted")))
      is_Exception
      (fun e =>
         on_base (ctx_error (TExnTrace (lit "Error deleting email: ") e)) ;;
         fret (TExn (lit "Error deleting email: ") e)).

(** The [finally] block of [server_lifespan], run when the server stops:
    a best-effort LOGOUT on the connection that is held, if any. *)
Definition server_lifespan_exit : F unit :=
  fun fs =>
    match email_config (base fs) with
    | Some cfg =>
        match connection cfg with
        | Some conn =>
            ftry_except
              (flag_call conn VLogout ;; fret tt)
              caught_all
              (fun _ => fret tt) fs
        | None => (Ok tt, fs)
        end
    | None => (Ok tt, fs)
    end.

End FlagTools.

(** ** Definitions used to state the properties *)

(** The body extractor part by part.  [is_attachment] is the test of
    line 124 itself: the word attachment, in lower case, occurs somewhere in
    the text of the Content-Disposition header (anywhere, a file name
    included; the text None stands for a missing header).  A part that
    passes it yields text of a type when it has that content type and a
    non-empty decoded payload; the text of a type is that of the last part
    yielding it, in visiting order. *)
Definition is_attachment (part : message) : bool :=
  contains (lit "attachment")
           (str_of_optional (content_disposition (msg_headers part))).

Definition text_of (ctype : str) (part : message) : option str :=
  if is_attachment part then None
  else
    match get_payload_decoded part with
    | Some body =>
        if truthy body && str_eqb (get_content_type part) ctype
        then Some (decode_utf8_replace body)
        else None
    | None => None
    end.

Fixpoint last_text (ctype : str) (parts : list message) : option str :=
  match parts with
  | [] => None
  | p :: rest =>
      match last_text ctype rest with
      | Some t => Some t
      | None => text_of ctype p
      end
  end.

Definition text_plain : str := lit "text/plain".
Definition text_html : str := lit "text/html".

(** The last [k] elements of a list, in their order. *)
Definition last_n {A} (k : nat) (l : list A) : list A :=
  skipn (length l - k) l.

(** Whether a query holds one of the field keywords, as line 281 tests it. *)
Definition has_keyword {lib : Library} (query : str) : bool :=
  existsb (fun x => contains x (upper query)) keywords.

(** The events of a run of fetches, one per message id. *)
Definition fetches (message_ids : list bytes) : list event :=
  map (fun msg_id => Called (VFetch msg_id)) message_ids.

(** The report of a search that ran to its end: the JSON document or the
    text for an empty result, as opposed to the texts of the failures. *)
Definition is_report (query : str) (out : text) : Prop :=
  out = no_emails_found query \/ exists j, out = TJson j.

(** The text of one segment in the words of the design: a byte segment
    with an explicit charset is decoded with it, and with UTF-8 and
    replacement characters when that fails; a byte segment without charset
    is decoded with UTF-8 and replacement characters; a literal span is
    itself. *)
Definition segment_text {lib : Library} (seg : segment) : str :=
  match seg with
  | (VBytes b, Some charset) =>
      if truthy charset then
        match codec_decode charset b with
        | Ok t => t
        | Raise _ => decode_utf8_replace b
        end
      else decode_utf8_replace b
  | (VBytes b, None) => decode_utf8_replace b
  | (VStr s, _) => s
  | (VNone, _) => lit "None"
  end.

(** A session after more events. *)
Definition logged {mbox : Mailbox} (st : Session) (events : list event)
  : Session :=
  {| email_config := email_config st;
     server := server st;
     trace := trace st ++ events |}.

(** The separator of the fallback split: a space and a double quote. *)
Definition space_quote : str := [space; quote].

(** ** Sample libraries, servers and messages *)

(** The headers of a part that has a content type and, possibly, a content
    disposition. *)
Definition plain_headers (ctype : string) (disposition : option str)
  : headers :=
  {| subject := None; from := None; to := None; date := None;
     content_disposition := disposition;
     content_type := lit ctype |}.

Definition sample_codec (encoding : str) (b : bytes) : result str :=
  if str_eqb encoding (lit "utf-8") then decode_utf8 b
  else if str_eqb encoding (lit "iso-8859-1") then Ok b
  else if str_eqb encoding (lit "us-ascii")
  then (if is_ascii b then Ok b else Raise UnicodeDecodeError)
  else Raise LookupError.

(** A library with three codecs in its registry, case mappings that leave
    the text outside ASCII alone, and a message parser for messages that are
    a plain-text body without header block. *)
Definition sample_library : Library :=
  {| unicode_upper := fun c => [c];
     unicode_lower := fun s => s;
     codec_decode := sample_codec;
     message_from_bytes :=
       fun raw => Leaf (plain_headers "text/plain" None) (Some raw) |}.

(** A server that accepts every command: [folders] are the lines of its
    LIST reply, [found] the ids of its SEARCH reply, [raw] the message it
    returns to every FETCH. *)
Definition ok_reply (d : list item) : reply :=
  {| status := lit "OK"; data := d |}.

Definition scripted_mailbox (folders : list item) (found raw : bytes)
  : Mailbox :=
  {| Server := unit;
     Conn := unit;
     imap_open := fun srv _ _ => (srv, Ok tt);
     imap_call := fun srv _ v =>
       (srv, Ok (ok_reply match v with
                          | VList => folders
                          | VSearch _ => [IBytes found]
                          | VFetch _ => [ITuple (lit "1 (RFC822 {0}") raw;
                                         IBytes (lit ")")]
                          | _ => []
                          end));
     environ := fun name =>
       if str_eqb name (lit "YAHOO_EMAIL") then Some (lit "user@example.com")
       else if str_eqb name (lit "YAHOO_PASSWORD") then Some (lit "secret")
       else None |}.

(** A session of such a server that is already logged in. *)
Definition logged_in (mbox : Mailbox) (srv : @Server mbox) (conn : @Conn mbox)
  : @Session mbox :=
  {| email_config := Some {| username := lit "user@example.com";
                             password := lit "secret";
                             imap_server := default_server;
                             imap_port := default_port;
                             connection := Some conn |};
     server := srv;
     trace := [] |}.

(** A mailbox whose only message has a body of 2500 letters, and a healthy
    session on it. *)
Definition long_body_mailbox : Mailbox :=
  scripted_mailbox [] [] (repeat 97 2500).

Definition long_body_session : @Session long_body_mailbox :=
  logged_in long_body_mailbox tt tt.

(** A LIST line whose folder name is not quoted. *)
Definition unquoted_line : bytes :=
  lit "(\HasNoChildren) " ++ [quote] ++ lit "/" ++ [quote] ++ lit " INBOX".

(** A LIST line without any quote. *)
Definition bare_line : bytes := lit "(\Noselect) NIL INBOX".

(** A mailbox without messages whose LIST reply is one line with an
    unquoted folder name and one line without any quote, and a healthy
    session on it. *)
Definition empty_mailbox : Mailbox :=
  scripted_mailbox [IBytes unquoted_line; IBytes bare_line] [] [].

Definition empty_session : @Session empty_mailbox :=
  logged_in empty_mailbox tt tt.

(** A mailbox with two folders; the name of the second holds a character
    outside ASCII (here e-acute, sent as UTF-8) inside an escape. *)
Definition inbox_line : bytes :=
  lit "(\HasNoChildren) " ++ [quote] ++ lit "/" ++ [quote] ++ lit " "
  ++ [quote] ++ lit "INBOX" ++ [quote].

Definition accented_line : bytes :=
  lit "(\HasNoChildren) " ++ [quote] ++ lit "/" ++ [quote] ++ lit " "
  ++ [quote] ++ [amp; 195; 169; dash] ++ [quote].

Definition accented_mailbox : Mailbox :=
  scripted_mailbox [IBytes inbox_line; IBytes accented_line] [] [].

Definition accented_session : @Session accented_mailbox :=
  logged_in accented_mailbox tt tt.

(** A mailbox whose search finds twenty messages, and a healthy session on
    it. *)
Definition twenty_ids : bytes :=
  lit "1 2 3 4 5 6 7 8 9 10 11 12 13 14 15 16 17 18 19 20".

Definition twenty_mailbox : Mailbox :=
  scripted_mailbox [] twenty_ids (lit "hello").

Definition twenty_session : @Session twenty_mailbox :=
  logged_in twenty_mailbox tt tt.

(** A multipart message whose only part is an attachment, one with an HTML
    part only, one with a plain and an HTML part, and one with an attached
    text file and a plain part. *)
Definition pdf_part : message :=
  Leaf (plain_headers "application/pdf" (Some (lit "attachment; filename=a.pdf")))
       (Some (lit "%PDF-1.4")).

Definition html_part : message :=
  Leaf (plain_headers "text/html" None) (Some (lit "<p>hello</p>")).

Definition plain_part : message :=
  Leaf (plain_headers "text/plain" None) (Some (lit "hello")).

Definition attached_text_part : message :=
  Leaf (plain_headers "text/plain" (Some (lit "attachment; filename=notes.txt")))
       (Some (lit "notes")).

Definition mixed (parts : list message) : message :=
  Multipart (plain_headers "multipart/mixed" None) parts.

(** ** Definitions used to state further properties *)

(** The two characters that open an encoded word. *)
Definition encoded_word_marker : str := [eq_sign; question].

(** The configuration records a connection. *)
Definition holds_connection {mbox : Mailbox} (st : Session) : Prop :=
  exists cfg conn, email_config st = Some cfg /\ connection cfg = Some conn.

(** The ids of a SEARCH reply as the server writes them: separated by one
    space. *)
Fixpoint join_spaces (tokens : list bytes) : bytes :=
  match tokens with
  | [] => []
  | [t] => t
  | t :: rest => t ++ space :: join_spaces rest
  end.

(** A message id: not empty, no white space. *)
Definition is_token (t : bytes) : bool :=
  truthy t && forallb (fun c => negb (is_ascii_space c)) t.

(** The commands that [move_email] and [delete_email] send for a message
    set, in the order of the source. *)
Definition move_commands (message_set : bytes) (destination_folder : str)
  : list flag_verb :=
  [VCopy message_set destination_folder;
   VStore message_set add_flags deleted;
   VExpunge].

Definition delete_commands (message_set : bytes) : list flag_verb :=
  [VStore message_set add_flags deleted; VExpunge].

(** In the run of a tool that starts in [fs]: [connect_to_email] returned
    [True], the server answered OK to the SELECT of the source folder on the
    connection that is held, and it then answered OK to the COPY of the
    message set, sent on the same connection as the first command that
    changes the mailbox. *)
Definition copy_accepted {mbox : Mailbox} {fbox : FlagMailbox mbox}
           (fs : FlagSession) (source_folder : str)
           (message_set : bytes) (destination_folder : str) : Prop :=
  exists (conn : Conn) (connected selected : Session)
         (after : FlagSession) (r1 r : reply),
    connect_to_email (base fs) = (Ok true, connected)
    /\ get_connection connected = (Ok conn, connected)
    /\ call conn (VSelect source_folder) connected = (Ok r1, selected)
    /\ status_ok r1 = true
    /\ flag_call conn (VCopy message_set destination_folder)
                 {| base := selected; flag_log := flag_log fs |}
       = (Ok r, after)
    /\ status_ok r = true.

(** The message of [connect_to_email] about missing credentials. *)
Definition credentials_not_found : text :=
  T (lit "Email credentials not found. Set YAHOO_EMAIL and YAHOO_PASSWORD environment variables.").

(** The texts of success. *)
Definition moved (email_id source_folder destination_folder : str) : text :=
  T (lit "Email " ++ email_id ++ lit " moved from " ++ source_folder
     ++ lit " to " ++ destination_folder).

Definition was_deleted (email_id : str) : text :=
  T (lit "Email " ++ email_id ++ lit " deleted").

(** The mailbox of twenty messages with a server that accepts STORE, COPY
    and LOGOUT and answers EXPUNGE with a given status, and a healthy
    session on it that has sent none of them yet. *)
Definition scripted_flags (expunge_status : str) : FlagMailbox twenty_mailbox :=
  {| imap_flag_call := fun srv _ v =>
       (srv, Ok {| status := match v with
                             | VExpunge => expunge_status
                             | _ => lit "OK"
                             end;
                   data := [] |}) |}.

Definition flag_session : @FlagSession twenty_mailbox :=
  {| base := twenty_session; flag_log := [] |}.

(** The same mailbox with a server on which every command that changes the
    mailbox is interrupted from the keyboard. *)
Definition interrupted_flags : FlagMailbox twenty_mailbox :=
  {| imap_flag_call := fun srv _ _ => (srv, Raise KeyboardInterrupt) |}.

(** A process that has not connected yet. *)
Definition fresh_session (mbox : Mailbox) (srv : @Server mbox)
  : @Session mbox :=
  {| email_config := None; server := srv; trace := [] |}.

(** A machine without the credentials in its environment. *)
Definition no_credentials_mailbox : Mailbox :=
  {| Server := unit;
     Conn := unit;
     imap_open := fun srv _ _ => (srv, Ok tt);
     imap_call := fun srv _ _ => (srv, Ok (ok_reply []));
     environ := fun _ => None |}.

(** A server that cannot be reached: every command and every attempt to
    connect fails with an [OSError]. *)
Definition unreachable_mailbox : Mailbox :=
  {| Server := unit;
     Conn := unit;
     imap_open := fun srv _ _ => (srv, Raise OSError);
     imap_call := fun srv _ _ => (srv, Raise OSError);
     environ := @environ twenty_mailbox |}.

(** A server that answers the probe and the login and fails every other
    command with an [IMAP4.error], a healthy session on it, and a server of
    the mailbox of twenty messages that fails every command that changes the
    mailbox in the same way. *)
Definition failing_mailbox : Mailbox :=
  {| Server := unit;
     Conn := unit;
     imap_open := fun srv _ _ => (srv, Ok tt);
     imap_call := fun srv _ v =>
       (srv, match v with
             | VNoop | VLogin _ _ => Ok (ok_reply [])
             | _ => Raise IMAP4Error
             end);
     environ := @environ twenty_mailbox |}.

Definition failing_session : @Session failing_mailbox :=
  logged_in failing_mailbox tt tt.

Definition failing_flags : FlagMailbox twenty_mailbox :=
  {| imap_flag_call := fun srv _ _ => (srv, Raise IMAP4Error) |}.

(** A server that was restarted: the connections of before ([false]) fail
    with an [OSError], those opened since ([true]) work. *)
Definition restarted_mailbox : Mailbox :=
  {| Server := unit;
     Conn := bool;
     imap_open := fun srv _ _ => (srv, Ok true);
     imap_call := fun srv conn _ =>
       (srv, if conn then Ok (ok_reply []) else Raise OSError);
     environ := @environ twenty_mailbox |}.

(** The disposition in the words of the design: a part indicates an
    attachment when the disposition type of its Content-Disposition header,
    the token before the first semicolon, is the word attachment.  The
    disposition type is not case-sensitive (RFC 2183), and the parameters
    after the semicolon (the file name among them) say nothing about it. *)
Fixpoint before_semicolon (s : str) : str :=
  match s with
  | [] => []
  | c :: t => if c =? 59 then [] else c :: before_semicolon t
  end.

Definition disposition_type (value : str) : str :=
  map ascii_lower (rev (lstrip (rev (lstrip (before_semicolon value))))).

Definition indicates_attachment (part : message) : bool :=
  match content_disposition (msg_headers part) with
  | Some value => str_eqb (disposition_type value) (lit "attachment")
  | None => false
  end.

(** A text file attached with a capital letter in the disposition type, and
    an inline text part whose file name holds the word attachment. *)
Definition capital_attachment_part : message :=
  Leaf (plain_headers "text/plain" (Some (lit "Attachment; filename=notes.txt")))
       (Some (lit "notes")).

Definition inline_named_part : message :=
  Leaf (plain_headers "text/plain" (Some (lit "inline; filename=attachment.txt")))
       (Some (lit "see below")).

(** The answers of the server to the FETCH commands for [message_ids], sent
    one after the other on [conn] from the session [st]: each id with
    whether its FETCH was answered OK. *)
Fixpoint fetch_answers {mbox : Mailbox} (conn : Conn)
         (message_ids : list bytes) (st : Session) : list (bytes * bool) :=
  match message_ids with
  | [] => []
  | msg_id :: rest =>
      let (r, st') := call conn (VFetch msg_id) st in
      (msg_id, match r with Ok rep => status_ok rep | Raise _ => false end)
        :: fetch_answers conn rest st'
  end.

(** The ids whose FETCH was answered OK, in the order of the commands. *)
Definition accepted_ids {mbox : Mailbox} (conn : Conn)
           (message_ids : list bytes) (st : Session) : list bytes :=
  map fst (filter snd (fetch_answers conn message_ids st)).

(** An entry of the results is the entry of a message id. *)
Definition lists_id (entry : json) (msg_id : bytes) : Prop :=
  exists fields id,
    entry = JObj fields /\
    json_field (lit "id") fields = Some (JStr id) /\
    decode_utf8 msg_id = Ok id.

(** What a search that ran to its end returns for its list of results. *)
Definition search_report (query folder : str) (results : list json) : text :=
  match results with
  | [] => no_emails_found query
  | _ :: _ => TJson (JObj [(lit "results", JArr results);
                           (lit "count", JNum (length results));
                           (lit "folder", JStr folder)])
  end.

(** A mailbox whose search finds three messages and whose server answers
    NO to every FETCH, and a healthy session on it. *)
Definition refused : reply :=
  {| status := lit "NO"; data := [IBytes (lit "FETCH failed")] |}.

Definition refusing_mailbox : Mailbox :=
  {| Server := unit;
     Conn := unit;
     imap_open := fun srv _ _ => (srv, Ok tt);
     imap_call := fun srv _ v =>
       (srv, Ok match v with
                | VSearch _ => ok_reply [IBytes (lit "1 2 3")]
                | VFetch _ => refused
                | _ => ok_reply []
                end);
     environ := @environ twenty_mailbox |}.

Definition refusing_session : @Session refusing_mailbox :=
  logged_in refusing_mailbox tt tt.


(** ** Proof steps *)

(** Case analysis on the outermost [match] or [if] whose scrutinee holds no
    other: it follows a run of the session monad step by step. *)
Ltac destruct_head H :=
  match type of H with
  | context [match ?x with _ => _ end] =>
      lazymatch x with
      | context [match _ with _ => _ end] => fail
      | _ => destruct x eqn:?
      end
  end.

Ltac follow_run H := repeat (destruct_head H; try discriminate H).

(** * Properties *)

(** ** The modified-UTF7 decoder *)

Lemma find_from_bound (c : N) (s : str) (start j : nat) :
  find_from c s start = Some j -> (start <= j)%nat.
Proof.
  unfold find_from. destruct (find_char c (skipn start s)); intros H.
  - injection H as <-. lia.
  - discriminate.
Qed.

(** The loop has exited before its fuel runs out: one more unit of fuel
    changes nothing once [len(s) <= fuel + i]. *)
Lemma decode_loop_fuel (fuel : nat) :
  forall (s : str) (i : nat) (res : str),
    (length s <= fuel + i)%nat ->
    decode_loop (S fuel) s i res = decode_loop fuel s i res.
Proof.
  induction fuel as [|fuel IH]; intros s i res Hlen.
  - simpl. destruct (i <? length s)%nat eqn:Hi; [|reflexivity].
    apply Nat.ltb_lt in Hi. lia.
  - change (decode_loop (S (S fuel)) s i res)
      with (if (i <? length s)%nat then
              if (nth i s 0 =? amp) && (i + 1 <? length s)%nat then
                match find_from dash s (i + 1) with
                | None => decode_loop (S fuel) s (i + 1) (res ++ [amp])
                | Some j =>
                    if (j =? i + 1)%nat then
                      decode_loop (S fuel) s (i + 2) (res ++ [amp])
                    else
                      match decode_payload
                              (replace_char comma slash (slice s (i + 1) j)) with
                      | Ok decoded_text =>
                          decode_loop (S fuel) s (j + 1) (res ++ decoded_text)
                      | Raise e =>
                          if caught_by_fallback e then
                            decode_loop (S fuel) s (j + 1)
                              (res ++ [amp] ++ slice s (i + 1) j ++ [dash])
                          else Raise e
                      end
                end
              else decode_loop (S fuel) s (i + 1) (res ++ [nth i s 0])
            else Ok res).
    cbn [decode_loop].
    destruct (i <? length s)%nat; [|reflexivity].
    destruct ((nth i s 0 =? amp) && (i + 1 <? length s)%nat).
    + destruct (find_from dash s (i + 1)) as [j|] eqn:Hj.
      * apply find_from_bound in Hj.
        destruct (j =? i + 1)%nat.
        -- apply IH. lia.
        -- destruct (decode_payload _) as [t|e].
           ++ apply IH. lia.
           ++ destruct (caught_by_fallback e); [apply IH; lia | reflexivity].
      * apply IH. lia.
    + apply IH. lia.
Qed.

Lemma decode_loop_more_fuel (extra : nat) (s : str) (i : nat) (res : str) :
  decode_loop (extra + length s) s i res = decode_loop (length s) s i res.
Proof.
  induction extra as [|extra IH]; [reflexivity|].
  cbn [Nat.add]. rewrite decode_loop_fuel by lia. exact IH.
Qed.

(** The only exception of the lenient Base64 decoder is [binascii.Error]. *)
Lemma a2b_loop_raises (data : bytes) :
  forall quad_pos leftchar pads out e,
    a2b_loop data quad_pos leftchar pads out = Raise e -> e = BinasciiError.
Proof.
  induction data as [|c rest IH]; intros quad_pos leftchar pads out e;
    cbn [a2b_loop].
  - destruct quad_pos; congruence.
  - destruct (c =? 61).
    + destruct (2 <=? quad_pos)%nat; [|apply IH].
      destruct (4 <=? quad_pos + S pads)%nat; [congruence | apply IH].
    + destruct (b64_value c); [|apply IH].
      destruct quad_pos as [|[|[|?]]]; apply IH.
Qed.

Lemma b64decode_ascii_raises (s : str) (e : exn) :
  is_ascii s = true -> b64decode s = Raise e -> e = BinasciiError.
Proof.
  unfold b64decode, a2b_base64. intros ->. apply a2b_loop_raises.
Qed.

(** The only exception of the UTF-16BE decoder is [UnicodeDecodeError]. *)
Lemma decode_utf16be_raises_upto (n : nat) :
  forall b e, (length b <= n)%nat ->
              decode_utf16be b = Raise e -> e = UnicodeDecodeError.
Proof.
  induction n as [|n IH]; intros b e Hlen.
  - destruct b; [intros H; discriminate H | simpl in Hlen; lia].
  - destruct b as [|b1 [|b2 rest]].
    + intros H; discriminate H.
    + simpl. congruence.
    + simpl in Hlen. cbn [decode_utf16be].
      destruct (is_low_surrogate _); [congruence|].
      destruct (is_high_surrogate _).
      * destruct rest as [|b3 [|b4 rest']]; [congruence | congruence |].
        destruct (is_low_surrogate _); [|congruence].
        destruct (decode_utf16be rest') eqn:Hrest; [intros H; discriminate H|].
        simpl. intros H. injection H as <-.
        apply (IH rest'); [simpl in Hlen; lia | exact Hrest].
      * destruct (decode_utf16be rest) eqn:Hrest; [intros H; discriminate H|].
        simpl. intros H. injection H as <-.
        apply (IH rest); [lia | exact Hrest].
Qed.

Lemma decode_utf16be_raises (b : bytes) (e : exn) :
  decode_utf16be b = Raise e -> e = UnicodeDecodeError.
Proof. apply (decode_utf16be_raises_upto (length b)). lia. Qed.

Lemma is_ascii_app (a b : str) :
  is_ascii (a ++ b) = is_ascii a && is_ascii b.
Proof. apply forallb_app. Qed.

Lemma is_ascii_firstn (n : nat) (s : str) :
  is_ascii s = true -> is_ascii (firstn n s) = true.
Proof.
  revert s. induction n as [|n IH]; intros [|c s]; simpl; try reflexivity.
  intros H. apply andb_prop in H as [Hc Hs]. rewrite Hc. simpl. auto.
Qed.

Lemma is_ascii_skipn (n : nat) (s : str) :
  is_ascii s = true -> is_ascii (skipn n s) = true.
Proof.
  revert s. induction n as [|n IH]; intros [|c s]; simpl; try reflexivity.
  - auto.
  - intros H. apply andb_prop in H as [_ Hs]. auto.
Qed.

Lemma is_ascii_slice (s : str) (a b : nat) :
  is_ascii s = true -> is_ascii (slice s a b) = true.
Proof.
  intros H. unfold slice. apply is_ascii_firstn, is_ascii_skipn, H.
Qed.

Lemma is_ascii_replace_comma (s : str) :
  is_ascii s = true -> is_ascii (replace_char comma slash s) = true.
Proof.
  induction s as [|c s IH]; simpl; [reflexivity|].
  intros H. apply andb_prop in H as [Hc Hs]. rewrite (IH Hs).
  destruct (c =? comma); [reflexivity | rewrite Hc; reflexivity].
Qed.

Lemma is_ascii_repeat_equals (n : nat) : is_ascii (repeat equals n) = true.
Proof. induction n; simpl; auto. Qed.

(** On an ASCII payload every failure of the [try] block is one the handler
    names. *)
Lemma decode_payload_ascii_caught (encoded : str) (e : exn) :
  is_ascii encoded = true ->
  decode_payload encoded = Raise e -> caught_by_fallback e = true.
Proof.
  intros Hascii. unfold decode_payload.
  set (padded := if (0 <? _)%nat then _ else _).
  assert (Hp : is_ascii padded = true).
  { subst padded. destruct (0 <? _)%nat; [|exact Hascii].
    rewrite is_ascii_app, Hascii, is_ascii_repeat_equals. reflexivity. }
  destruct (b64decode padded) as [b|e'] eqn:Hb; simpl.
  - intros H. apply decode_utf16be_raises in H. subst e. reflexivity.
  - intros H. injection H as <-.
    apply (b64decode_ascii_raises _ _ Hp) in Hb. subst e'. reflexivity.
Qed.

Lemma decode_loop_ascii_returns (fuel : nat) :
  forall (s : str) (i : nat) (res : str),
    is_ascii s = true -> returns (decode_loop fuel s i res).
Proof.
  induction fuel as [|fuel IH]; intros s i res Hascii; simpl.
  - eexists; reflexivity.
  - destruct (i <? length s)%nat; [|eexists; reflexivity].
    destruct ((nth i s 0 =? amp) && (i + 1 <? length s)%nat); [|apply IH, Hascii].
    destruct (find_from dash s (i + 1)) as [j|]; [|apply IH, Hascii].
    destruct (j =? i + 1)%nat; [apply IH, Hascii|].
    destruct (decode_payload _) as [t|e] eqn:Hp; [apply IH, Hascii|].
    apply decode_payload_ascii_caught in Hp.
    + rewrite Hp. apply IH, Hascii.
    + apply is_ascii_replace_comma, is_ascii_slice, Hascii.
Qed.

(** On wire names made of ASCII characters only, the decoder returns a
    string whatever the escapes hold. *)
Lemma decode_modified_utf7_ascii_returns (s : str) :
  is_ascii s = true -> returns (decode_modified_utf7 s).
Proof.
  intros H. unfold decode_modified_utf7.
  destruct (negb (truthy s)); [eexists; reflexivity|].
  apply decode_loop_ascii_returns, H.
Qed.

(** The examples of the design, and a folder name in Japanese. *)
Example decode_modified_utf7_literal_ampersand :
  decode_modified_utf7 (lit "&-") = Ok (lit "&")
  /\ decode_modified_utf7 (lit "a&-b") = Ok (lit "a&b").
Proof. split; reflexivity. Qed.

Example decode_modified_utf7_fixture :
  decode_modified_utf7 (lit "Sent/&kAFP4W4IMH8-")
  = Ok (lit "Sent/" ++ [36865; 20449; 28168; 12415]).
Proof. reflexivity. Qed.

(** A malformed escape, and a payload that is not Base64 or not UTF-16BE,
    come back as they were. *)
Example decode_modified_utf7_fail_soft :
  decode_modified_utf7 (lit "a&bc") = Ok (lit "a&bc")
  /\ decode_modified_utf7 (lit "&a-") = Ok (lit "&a-")
  /\ decode_modified_utf7 (lit "&AAAA-") = Ok (lit "&AAAA-").
Proof. repeat split; reflexivity. Qed.

(** The one exception that can leave the decoder is the plain
    [ValueError]. *)
Lemma decode_payload_raises (encoded : str) (e : exn) :
  decode_payload encoded = Raise e ->
  caught_by_fallback e = true \/ e = ValueError.
Proof.
  unfold decode_payload, b64decode.
  set (padded := if (0 <? _)%nat then _ else _).
  destruct (is_ascii padded).
  - destruct (a2b_base64 padded) as [b|e'] eqn:Hb; cbn [bind].
    + intros H. apply decode_utf16be_raises in H. subst e. now left.
    + intros H. injection H as <-. apply a2b_loop_raises in Hb. subst e'.
      now left.
  - cbn [bind]. intros H. injection H as <-. now right.
Qed.

Lemma decode_loop_raises (fuel : nat) :
  forall (s : str) (i : nat) (res : str) (e : exn),
    decode_loop fuel s i res = Raise e -> e = ValueError.
Proof.
  induction fuel as [|fuel IH]; intros s i res e; cbn [decode_loop].
  - discriminate.
  - destruct (i <? length s)%nat; [|discriminate].
    destruct ((nth i s 0 =? amp) && (i + 1 <? length s)%nat); [|apply IH].
    destruct (find_from dash s (i + 1)) as [j|]; [|apply IH].
    destruct (j =? i + 1)%nat; [apply IH|].
    destruct (decode_payload _) as [t|e'] eqn:Hp; [apply IH|].
    destruct (caught_by_fallback e') eqn:Hc; [apply IH|].
    intros H. injection H as <-.
    destruct (decode_payload_raises _ _ Hp) as [Hcaught|Hv];
      [congruence | exact Hv].
Qed.

Lemma decode_modified_utf7_raises (s : str) (e : exn) :
  decode_modified_utf7 s = Raise e -> e = ValueError.
Proof.
  unfold decode_modified_utf7. destruct (negb (truthy s)); [discriminate|].
  apply decode_loop_raises.
Qed.

(** C1 (a defect of the code): the decoder is not total.  On the three
    characters ampersand, e-acute, dash the payload is padded and handed to
    [base64.b64decode], which rejects a character outside ASCII with a plain
    [ValueError]; the handler names only [UnicodeDecodeError] and
    [binascii.Error], so the exception leaves [decode_modified_utf7]. *)
Theorem decode_modified_utf7_raises_on_non_ascii_payload :
  decode_modified_utf7 [amp; 233; dash] = Raise ValueError.
Proof. reflexivity. Qed.

(** ** The MIME body extractor *)

Lemma utf8_scan_nonempty (b : bytes) : truthy b = true -> utf8_scan b <> [].
Proof.
  destruct b as [|ch t1]; [discriminate|]. intros _. cbn [utf8_scan].
  repeat match goal with
         | |- context [if ?c then _ else _] => destruct c
         | |- context [match ?l with [] => _ | _ :: _ => _ end] => destruct l
         end; discriminate.
Qed.

Lemma decode_utf8_replace_truthy (b : bytes) :
  truthy b = true -> truthy (decode_utf8_replace b) = true.
Proof.
  intros H. apply utf8_scan_nonempty in H. unfold decode_utf8_replace.
  destruct (utf8_scan b); [contradiction | reflexivity].
Qed.

Lemma text_types_differ : str_eqb text_plain text_html = false.
Proof. reflexivity. Qed.

(** What one iteration does to the two accumulators. *)
Lemma body_step_text_of (acc : str * str) (part : message) :
  body_step acc part =
  (match text_of text_plain part with Some t => t | None => fst acc end,
   match text_of text_html part with Some t => t | None => snd acc end).
Proof.
  unfold body_step, text_of, is_attachment. fold text_plain text_html.
  destruct (contains _ _); [destruct acc; reflexivity|].
  destruct (get_payload_decoded part) as [body|]; [|destruct acc; reflexivity].
  destruct (truthy body); [|destruct acc; reflexivity]. cbn [andb].
  destruct (str_eqb (get_content_type part) text_plain) eqn:Hp.
  - assert (Hh : str_eqb (get_content_type part) text_html = false).
    { unfold str_eqb in *.
      destruct (list_eq_dec N.eq_dec (get_content_type part) text_plain) as [->|];
        [reflexivity | discriminate]. }
    rewrite Hh. reflexivity.
  - destruct (str_eqb (get_content_type part) text_html);
      destruct acc; reflexivity.
Qed.

(** The loop invariant: after the parts [l], each accumulator holds the text
    of the last part that yielded one, or its initial value. *)
Lemma fold_body_step (l : list message) :
  forall acc,
    fold_left body_step l acc =
    (match last_text text_plain l with Some t => t | None => fst acc end,
     match last_text text_html l with Some t => t | None => snd acc end).
Proof.
  induction l as [|p rest IH]; intros acc; cbn [fold_left last_text].
  - destruct acc; reflexivity.
  - rewrite IH, body_step_text_of. cbn [fst snd].
    destruct (last_text text_plain rest), (last_text text_html rest);
      reflexivity.
Qed.

Lemma text_of_truthy (ctype : str) (part : message) (t : str) :
  text_of ctype part = Some t -> truthy t = true.
Proof.
  unfold text_of. destruct (is_attachment part); [discriminate|].
  destruct (get_payload_decoded part) as [body|]; [|discriminate].
  destruct (truthy body) eqn:Hb; [|discriminate].
  destruct (str_eqb _ _); [|discriminate].
  intros H. injection H as <-. apply decode_utf8_replace_truthy, Hb.
Qed.

Lemma last_text_truthy (ctype : str) (l : list message) (t : str) :
  last_text ctype l = Some t -> truthy t = true.
Proof.
  induction l as [|p rest IH]; cbn [last_text]; [discriminate|].
  destruct (last_text ctype rest) as [t'|].
  - intros H. injection H as <-. apply IH. reflexivity.
  - apply text_of_truthy.
Qed.

Lemma get_email_body_multipart_eq (h : headers) (parts : list message) :
  get_email_body (Multipart h parts) =
  match last_text text_plain (walk (Multipart h parts)) with
  | Some plain => plain
  | None =>
      match last_text text_html (walk (Multipart h parts)) with
      | Some html => html
      | None => []
      end
  end.
Proof.
  unfold get_email_body. cbn [is_multipart].
  rewrite fold_body_step. cbn [fst snd].
  destruct (last_text text_plain _) as [plain|] eqn:Hp.
  - rewrite (last_text_truthy _ _ _ Hp). reflexivity.
  - reflexivity.
Qed.

(** C2, as the claim states it, fails: a multipart message whose only part is
    an attachment yields the empty string, not the sentinel. *)
Lemma get_email_body_no_sentinel_for_multipart :
  last_text text_plain (walk (mixed [pdf_part])) = None /\
  last_text text_html (walk (mixed [pdf_part])) = None /\
  get_email_body (mixed [pdf_part]) = [] /\
  get_email_body (mixed [pdf_part]) <> could_not_decode.
Proof. repeat split; vm_compute; discriminate. Qed.

(** C2, amended: for a multipart message in which no visible part yields
    text/plain or text/html content, [get_email_body] returns the empty
    string (it does not raise); the sentinel is the answer of the other
    branch, for a message that is not multipart and has no payload. *)
Theorem get_email_body_multipart_without_text
  (h : headers) (parts : list message) :
  last_text text_plain (walk (Multipart h parts)) = None ->
  last_text text_html (walk (Multipart h parts)) = None ->
  get_email_body (Multipart h parts) = [].
Proof.
  intros Hp Hh. rewrite get_email_body_multipart_eq, Hp, Hh. reflexivity.
Qed.

Lemma get_email_body_multipart_without_text_witness :
  get_email_body (mixed [pdf_part]) = [].
Proof.
  apply get_email_body_multipart_without_text; vm_compute; reflexivity.
Defined.

(** The sentinel itself: a message that is not multipart and whose payload
    cannot be read. *)
Lemma get_email_body_sentinel (h : headers) :
  get_email_body (Leaf h None) = could_not_decode.
Proof. reflexivity. Qed.

(** On a multipart message the extractor ignores the parts that its own
    test [is_attachment] marks and returns the decoded payload of the last
    remaining text/plain part with a non-empty payload, and when there is
    none that of the last remaining text/html part with a non-empty payload
    (the empty string when there is none either); so HTML alone yields the
    HTML text, plain and HTML together yield the plain text, and a text file
    attached in lower case is not the body. *)
Theorem get_email_body_last_plain_else_html
        (h : headers) (parts : list message) :
  get_email_body (Multipart h parts) =
    match last_text text_plain (walk (Multipart h parts)) with
    | Some plain => plain
    | None =>
        match last_text text_html (walk (Multipart h parts)) with
        | Some html => html
        | None => []
        end
    end
  /\ get_email_body (mixed [html_part]) = lit "<p>hello</p>"
  /\ get_email_body (mixed [plain_part; html_part]) = lit "hello"
  /\ get_email_body (mixed [html_part; plain_part]) = lit "hello"
  /\ get_email_body (mixed [attached_text_part; plain_part]) = lit "hello"
  /\ get_email_body (mixed [plain_part; attached_text_part]) = lit "hello".
Proof.
  split; [apply get_email_body_multipart_eq|].
  repeat split; vm_compute; reflexivity.
Qed.

(** C6 (a defect of the code): the extractor does not skip every part whose
    content disposition indicates an attachment.  The test of line 124,
    under the comment that announces the skipping of attachments, looks for
    the lower-case word anywhere in the header text.  A text file sent as
    [Attachment; filename=notes.txt] indicates an attachment, passes the
    test and replaces the body of the message; an inline part whose file
    name is attachment.txt indicates none and is dropped. *)
Theorem get_email_body_returns_capitalised_attachment :
  indicates_attachment capital_attachment_part = true
  /\ is_attachment capital_attachment_part = false
  /\ get_email_body (mixed [plain_part; capital_attachment_part]) = lit "notes"
  /\ indicates_attachment inline_named_part = false
  /\ is_attachment inline_named_part = true
  /\ get_email_body (mixed [inline_named_part]) = [].
Proof. repeat split; vm_compute; reflexivity. Qed.

(** ** The header text decoder *)

Lemma decode_value_segment_text {lib : Library} (seg : segment) :
  decode_value (fst seg) (snd seg) = segment_text seg.
Proof.
  destruct seg as [[b|t|] [charset|]]; cbn; try reflexivity.
  destruct (truthy charset); reflexivity.
Qed.

Lemma fold_left_header_text {lib : Library} (segs : list segment) :
  forall header_text,
    fold_left (fun text p => text ++ decode_value (fst p) (snd p))
              segs header_text
    = header_text ++ concat (map segment_text segs).
Proof.
  induction segs as [|seg rest IH]; intros header_text; cbn [fold_left map concat].
  - now rewrite app_nil_r.
  - rewrite IH, decode_value_segment_text, app_assoc. reflexivity.
Qed.

(** Once the library has split the header, the loop does what the design
    says and does not raise: each segment is decoded on its own, and the
    texts are joined in order. *)
Lemma decode_email_header_of_segments {lib : Library} (header : str) :
  decode_email_header header
  = bind (decode_header header)
         (fun segs => Ok (concat (map segment_text segs))).
Proof.
  unfold decode_email_header.
  destruct (decode_header header) as [segs|e]; cbn [bind]; [|reflexivity].
  now rewrite fold_left_header_text.
Qed.

(** Two encoded words with different charsets, the first in Base64 and the
    second in Q encoding: both are decoded, in order. *)
Example decode_email_header_two_charsets :
  @decode_email_header sample_library
    (lit "=?utf-8?b?w6k=?= =?iso-8859-1?q?=E9t=E9?=")
  = Ok [233; 233; 116; 233].
Proof. reflexivity. Qed.

(** A word whose bytes its charset cannot decode falls back to UTF-8 with
    replacement characters. *)
Example decode_email_header_fallback :
  @decode_email_header sample_library (lit "=?us-ascii?q?caf=E9?=")
  = Ok (lit "caf" ++ [replacement_char]).
Proof. reflexivity. Qed.

(** C8 (a defect of the code): the header decoder can raise.  The library
    call [decode_header] stands outside the [try]; on an encoded word whose
    Base64 text has one character more than a multiple of four it raises
    [HeaderParseError], and so does [decode_email_header], whatever the
    library's codecs are. *)
Theorem decode_email_header_raises_on_bad_base64 (lib : Library) :
  decode_email_header (lit "=?utf-8?b?a?=") = Raise HeaderParseError.
Proof. reflexivity. Qed.

(** ** Runs of the tools *)

Section Runs.

Context {lib : Library} {mbox : Mailbox}.

(** *** Reading one message *)

Lemma body_field_cases (body : str) :
  ((2000 < length body)%nat /\
   body_field body = firstn 2000 body ++ lit "...")
  \/ ((length body <= 2000)%nat /\ body_field body = body).
Proof.
  unfold body_field. destruct (2000 <? length body)%nat eqn:H.
  - left. apply Nat.ltb_lt in H. auto.
  - right. apply Nat.ltb_ge in H. split; [exact H|].
    rewrite app_nil_r. apply firstn_all2. exact H.
Qed.

(** C7: whenever [read_email] returns its JSON document, the message [msg]
    parsed from the reply to the FETCH of [email_id] has a decoded body
    [get_email_body msg] such that the document's body field is the first
    2000 characters followed by three dots when the body is longer than 2000
    characters, and the body itself, without marker, when it is not. *)
Theorem read_email_body_field (email_id folder : str) (st st' : Session)
        (fields : list (str * json)) :
  read_email email_id folder st = (Ok (TJson (JObj fields)), st') ->
  exists (conn : Conn) (message_set : bytes) (before : Session) (r : reply)
         (msg : message),
    encode_utf8 email_id = Ok message_set /\
    call conn (VFetch message_set) before = (Ok r, st') /\
    fetched_message (data r) = Ok msg /\
    let body := get_email_body msg in
    ((2000 < length body)%nat /\
     json_field (lit "body") fields
     = Some (JStr (firstn 2000 body ++ lit "...")))
    \/ ((length body <= 2000)%nat /\
        json_field (lit "body") fields = Some (JStr body)).
Proof.
  unfold read_email, mbind, try_except, ret, lift. intros H.
  follow_run H.
  injection H as <- <-.
  match goal with
  | Hc : call ?c (VFetch ?m) ?s = (Ok ?r, _),
    Hm : fetched_message _ = Ok ?msg |- _ =>
      exists c, m, s, r, msg; repeat split; try assumption; cbv zeta;
      replace (json_field (lit "body") _)
        with (Some (JStr (body_field (get_email_body msg)))) by reflexivity;
      destruct (body_field_cases (get_email_body msg)) as [[Hlen ->]|[Hlen ->]];
      [left | right]; split; auto
  end.
Qed.

(** *** Primitive steps *)

Lemma get_connection_ok (st st' : Session) (conn : Conn) :
  get_connection st = (Ok conn, st') -> st' = st.
Proof.
  unfold get_connection. intros H. follow_run H. congruence.
Qed.

Lemma call_trace (conn : Conn) (v : verb) (st st' : Session)
      (r : result reply) :
  call conn v st = (r, st') ->
  trace st' = trace st ++ [Called v] /\ email_config st' = email_config st.
Proof.
  unfold call. destruct (imap_call (server st) conn v) as [srv r0].
  intros H. injection H as <- <-. split; reflexivity.
Qed.

(** *** Searching: which messages are fetched *)

Lemma slice_from_tail (limit : Z) (message_ids : list bytes) :
  (1 <= limit)%Z ->
  limit_message_ids limit message_ids
  = last_n (Z.to_nat (Z.min limit (Z.of_nat (length message_ids))))
           message_ids.
Proof.
  intros Hlimit. unfold limit_message_ids, slice_from, last_n.
  set (n := Z.of_nat (length message_ids)).
  destruct (- Z.min limit n <? 0)%Z eqn:Hneg.
  - apply Z.ltb_lt in Hneg. f_equal. lia.
  - apply Z.ltb_ge in Hneg.
    assert (Hn : n = 0%Z) by lia.
    assert (Hnil : message_ids = []).
    { destruct message_ids; [reflexivity | simpl in n; lia]. }
    subst message_ids. now rewrite !skipn_nil.
Qed.

Lemma slice_from_zero (message_ids : list bytes) :
  limit_message_ids 0 message_ids = message_ids.
Proof.
  unfold limit_message_ids, slice_from.
  replace (- Z.min 0 (Z.of_nat (length message_ids)))%Z with 0%Z by lia.
  cbn [Z.ltb Z.compare].
  replace (Z.min 0 (Z.of_nat (length message_ids))) with 0%Z by lia.
  reflexivity.
Qed.

Lemma search_step_trace (results out : list json) (msg_id : bytes)
      (st st' : Session) :
  search_step results msg_id st = (Ok out, st') ->
  trace st' = trace st ++ [Called (VFetch msg_id)].
Proof.
  unfold search_step, mbind, ret, lift. intros H. follow_run H;
    injection H as <- <-;
    match goal with
    | Hg : get_connection _ = _, Hc : call _ _ _ = _ |- _ =>
        apply get_connection_ok in Hg; subst;
        apply call_trace in Hc; tauto
    end.
Qed.

Lemma for_each_search_step_trace (message_ids : list bytes) :
  forall (results out : list json) (st st' : Session),
    for_each search_step message_ids results st = (Ok out, st') ->
    trace st' = trace st ++ fetches message_ids.
Proof.
  induction message_ids as [|msg_id rest IH]; intros results out st st';
    cbn [for_each fetches map].
  - unfold ret. intros H. injection H as <- <-. now rewrite app_nil_r.
  - unfold mbind.
    destruct (search_step results msg_id st) as [[acc|e] mid] eqn:Hstep;
      [|discriminate].
    intros H. apply IH in H. apply search_step_trace in Hstep.
    rewrite H, Hstep, <- app_assoc. reflexivity.
Qed.

(** A run of the loop that an exception cuts short has fetched the first
    ids of the list, one after the other, and nothing else. *)
Lemma search_step_trace_any (results : list json) (msg_id : bytes)
      (st st' : Session) (r : result (list json)) :
  search_step results msg_id st = (r, st') ->
  trace st' = trace st ++ [Called (VFetch msg_id)]
  \/ (trace st' = trace st /\ exists e, r = Raise e).
Proof.
  unfold search_step, mbind, ret, lift. intros H.
  destruct (get_connection st) as [[conn|e] s0] eqn:Hg.
  - apply get_connection_ok in Hg. subst s0. left.
    destruct (call conn (VFetch msg_id) st) as [[rep|e] s1] eqn:Hc;
      apply call_trace in Hc as [Hc _].
    + follow_run H; injection H as <- <-; exact Hc.
    + injection H as <- <-. exact Hc.
  - right. unfold get_connection in Hg.
    follow_run Hg; injection Hg as <- <-; injection H as <- <-; eauto.
Qed.

Lemma for_each_search_step_trace_any (message_ids : list bytes) :
  forall (results : list json) (st st' : Session) (r : result (list json)),
    for_each search_step message_ids results st = (r, st') ->
    exists k, (k <= length message_ids)%nat /\
              trace st' = trace st ++ fetches (firstn k message_ids).
Proof.
  induction message_ids as [|msg_id rest IH]; intros results st st' r;
    cbn [for_each].
  - unfold ret. intros H. injection H as <- <-. exists 0%nat.
    split; [lia | now rewrite app_nil_r].
  - unfold mbind.
    destruct (search_step results msg_id st) as [[acc|e] mid] eqn:Hstep.
    + intros H. apply IH in H as (k & Hk & Htrace).
      apply search_step_trace in Hstep.
      exists (S k). split; [cbn; lia|].
      rewrite Htrace, Hstep, <- app_assoc. reflexivity.
    + intros H. injection H as <- <-.
      apply search_step_trace_any in Hstep as [Hstep|[Hstep _]].
      * exists 1%nat. split; [cbn; lia | exact Hstep].
      * exists 0%nat. split; [lia | now rewrite Hstep, app_nil_r].
Qed.

Lemma collect_results_trace (query folder : str) (limit : Z)
      (message_ids : list bytes) (st st' : Session) (out : text) :
  collect_results query folder limit message_ids st = (Ok out, st') ->
  trace st' = trace st ++ fetches (limit_message_ids limit message_ids).
Proof.
  unfold collect_results, mbind, ret. intros H.
  destruct (for_each search_step _ [] st) as [[results|e] mid] eqn:Hloop;
    [|discriminate].
  apply for_each_search_step_trace in Hloop.
  destruct (negb _); injection H as <- <-; exact Hloop.
Qed.

Lemma search_emails_fetches (query folder : str) (limit : Z)
      (st st' : Session) (out : text) :
  search_emails query folder limit st = (Ok out, st') ->
  is_report query out ->
  exists (conn : Conn) (before after : Session) (r : reply)
         (message_ids : list bytes),
    call conn (VSearch (imap_query query)) before = (Ok r, after) /\
    search_ids (data r) = Ok message_ids /\
    trace st' = trace after ++ fetches (limit_message_ids limit message_ids).
Proof.
  unfold search_emails, mbind, try_except, ret, lift. intros H Hreport.
  follow_run H;
    try (injection H as <- <-; destruct Hreport as [Hr|[j Hr]];
         discriminate Hr).
  match goal with
  | Hc : call ?c (VSearch _) ?s = (Ok ?r, ?s'),
    Hi : search_ids _ = Ok ?ids,
    Hcoll : collect_results _ _ _ _ _ = _ |- _ =>
      exists c, s, s', r, ids; repeat split; try assumption;
      injection H as <- <-; apply collect_results_trace in Hcoll;
      exact Hcoll
  end.
Qed.


Lemma get_connection_same_config (st st' : Session) (conn : Conn) :
  get_connection st = (Ok conn, st) ->
  email_config st' = email_config st ->
  get_connection st' = (Ok conn, st').
Proof.
  unfold get_connection. intros H Hcfg. rewrite Hcfg.
  destruct (email_config st) as [cfg|]; [|discriminate].
  destruct (connection cfg); [|discriminate].
  injection H as ->. reflexivity.
Qed.

(** One iteration of the loop sends one FETCH; it leaves the results as they
    are when the answer is not OK and adds the entry of the id otherwise. *)
Lemma search_step_accepted (results out : list json) (msg_id : bytes)
      (conn : Conn) (st st' : Session) :
  get_connection st = (Ok conn, st) ->
  search_step results msg_id st = (Ok out, st') ->
  exists rep,
    call conn (VFetch msg_id) st = (Ok rep, st') /\
    ((status_ok rep = false /\ out = results)
     \/ (status_ok rep = true /\
         exists entry, out = results ++ [entry] /\ lists_id entry msg_id)).
Proof.
  intros Hconn. unfold search_step, mbind, ret, lift. rewrite Hconn.
  destruct (call conn (VFetch msg_id) st) as [[rep|e] s1] eqn:Hcall;
    [|discriminate].
  intros H. exists rep. destruct (status_ok rep) eqn:Hok; cbn [negb] in H.
  - follow_run H. injection H as <- <-.
    split; [reflexivity|]. right. split; [reflexivity|].
    eexists. split; [reflexivity|].
    do 2 eexists. split; [reflexivity|]. split; [reflexivity | assumption].
  - injection H as <- <-. split; [reflexivity|]. left. auto.
Qed.

Lemma for_each_search_step_accepted (message_ids : list bytes)
      (conn : Conn) :
  forall (results out : list json) (st st' : Session),
    get_connection st = (Ok conn, st) ->
    for_each search_step message_ids results st = (Ok out, st') ->
    exists added,
      out = results ++ added /\
      Forall2 lists_id added (accepted_ids conn message_ids st).
Proof.
  unfold accepted_ids.
  induction message_ids as [|msg_id rest IH]; intros results out st st' Hconn;
    cbn [for_each fetch_answers].
  - unfold ret. intros H. injection H as <- <-. exists [].
    split; [now rewrite app_nil_r | constructor].
  - unfold mbind.
    destruct (search_step results msg_id st) as [[acc|e] mid] eqn:Hstep;
      [|discriminate].
    intros Hloop.
    destruct (search_step_accepted _ _ _ _ _ _ Hconn Hstep)
      as (rep & Hcall & Hcases).
    rewrite Hcall.
    assert (Hmid : get_connection mid = (Ok conn, mid)).
    { apply (get_connection_same_config st); [exact Hconn|].
      apply call_trace in Hcall. tauto. }
    destruct (IH _ _ _ _ Hmid Hloop) as (added & -> & Hall).
    destruct Hcases as [[Hok ->]|[Hok (entry & -> & Hentry)]];
      rewrite Hok; cbn [filter snd map fst].
    + exists added. split; [reflexivity | exact Hall].
    + exists (entry :: added). split; [now rewrite <- app_assoc|].
      constructor; assumption.
Qed.

Lemma collect_results_accepted (query folder : str)
      (message_ids : list bytes) (conn : Conn) (st st' : Session)
      (out : text) :
  get_connection st = (Ok conn, st) ->
  collect_results query folder 0 message_ids st = (Ok out, st') ->
  exists results,
    Forall2 lists_id results (accepted_ids conn message_ids st) /\
    out = search_report query folder results.
Proof.
  intros Hconn. unfold collect_results, mbind, ret.
  rewrite slice_from_zero.
  destruct (for_each search_step message_ids [] st) as [[results|e] mid]
    eqn:Hloop; [|discriminate].
  destruct (for_each_search_step_accepted _ _ _ _ _ _ Hconn Hloop)
    as (added & -> & Hall).
  cbn [app]. intros H. exists added. split; [exact Hall|].
  destruct added; injection H as <- <-; reflexivity.
Qed.

Lemma accepted_ids_all (conn : Conn) (message_ids : list bytes) :
  forall st : Session,
    forallb snd (fetch_answers conn message_ids st) = true ->
    accepted_ids conn message_ids st = message_ids.
Proof.
  unfold accepted_ids.
  induction message_ids as [|msg_id rest IH]; intros st;
    cbn [fetch_answers]; [reflexivity|].
  destruct (call conn (VFetch msg_id) st) as [r mid].
  cbn [forallb filter snd]. intros H.
  apply andb_true_iff in H as [-> H]. cbn [map fst].
  now rewrite (IH _ H).
Qed.

(** C10, amended: with a limit of zero the slice of line 294 keeps the whole
    list, so a search that runs to its end fetches every id that the server
    returned, not none of them, and what it returns are the entries, in
    order, of the ids whose FETCH the server answered OK: the entries of all
    the ids when no FETCH is refused. *)
Theorem search_emails_limit_zero_returns_accepted (query folder : str)
        (st st' : Session) (out : text) :
  search_emails query folder 0 st = (Ok out, st') ->
  is_report query out ->
  exists (conn : Conn) (before after : Session) (r : reply)
         (message_ids : list bytes) (results : list json),
    call conn (VSearch (imap_query query)) before = (Ok r, after) /\
    search_ids (data r) = Ok message_ids /\
    limit_message_ids 0 message_ids = message_ids /\
    trace st' = trace after ++ fetches message_ids /\
    Forall2 lists_id results (accepted_ids conn message_ids after) /\
    out = search_report query folder results /\
    (forallb snd (fetch_answers conn message_ids after) = true ->
     Forall2 lists_id results message_ids).
Proof.
  unfold search_emails, mbind, try_except, ret, lift. intros H Hreport.
  follow_run H;
    try (injection H as <- <-; destruct Hreport as [Hr|[j Hr]];
         discriminate Hr).
  match goal with
  | Hg : get_connection ?s0 = (Ok ?c, ?s),
    Hc : call ?c (VSearch _) ?s = (Ok ?r, ?s'),
    Hi : search_ids _ = Ok ?ids,
    Hcoll : collect_results _ _ _ _ _ = _ |- _ =>
      injection H as <- <-;
      pose proof (get_connection_ok _ _ _ Hg) as Hs; subst;
      assert (Hafter : get_connection s' = (Ok c, s'))
        by (apply (get_connection_same_config s0); [exact Hg|];
            apply call_trace in Hc; tauto);
      destruct (collect_results_accepted _ _ _ _ _ _ _ Hafter Hcoll)
        as (results & Hall & Hout);
      exists c, s0, s', r, ids, results;
      split; [exact Hc|]; split; [exact Hi|];
      split; [apply slice_from_zero|];
      split; [apply collect_results_trace in Hcoll;
              now rewrite Hcoll, slice_from_zero|];
      split; [exact Hall|]; split; [exact Hout|];
      intros Hok; rewrite (accepted_ids_all _ _ _ Hok) in Hall; exact Hall
  end.
Qed.

(** *** The connection manager *)

Lemma probe_healthy (st : Session) (cfg : EmailConfig) (conn : Conn)
      (srv : Server) (r : reply) :
  email_config st = Some cfg ->
  connection cfg = Some conn ->
  imap_call (server st) conn VNoop = (srv, Ok r) ->
  status r = lit "OK" ->
  probe st = (Ok true, {| email_config := email_config st;
                          server := srv;
                          trace := trace st ++ [Called VNoop] |}).
Proof.
  intros Hcfg Hconn Hnoop Hstatus.
  unfold probe, try_except, mbind, call, ret, status_ok.
  rewrite Hcfg, Hconn, Hnoop, Hstatus. reflexivity.
Qed.

Lemma connect_to_email_healthy (st : Session) (cfg : EmailConfig)
      (conn : Conn) (srv : Server) (r : reply) :
  email_config st = Some cfg ->
  connection cfg = Some conn ->
  imap_call (server st) conn VNoop = (srv, Ok r) ->
  status r = lit "OK" ->
  connect_to_email st = (Ok true, {| email_config := email_config st;
                                     server := srv;
                                     trace := trace st ++ [Called VNoop] |}).
Proof.
  intros Hcfg Hconn Hnoop Hstatus. unfold connect_to_email, mbind.
  rewrite (probe_healthy _ _ _ _ _ Hcfg Hconn Hnoop Hstatus). reflexivity.
Qed.

(** C9: on a session that holds a connection whose NOOP is answered with
    OK, [connect_to_email] returns [True] after that one probe: it opens no
    connection, sends no LOGIN and leaves [email_config] as it was.  A
    second call on the resulting session, the server answering OK again,
    does the same, so two calls in a row send two probes and nothing else. *)
Theorem connect_to_email_idempotent (st : Session) (cfg : EmailConfig)
        (conn : Conn) (srv srv2 : Server) (r r2 : reply) :
  email_config st = Some cfg ->
  connection cfg = Some conn ->
  imap_call (server st) conn VNoop = (srv, Ok r) ->
  status r = lit "OK" ->
  imap_call srv conn VNoop = (srv2, Ok r2) ->
  status r2 = lit "OK" ->
  connect_to_email st
  = (Ok true, {| email_config := email_config st;
                 server := srv;
                 trace := trace st ++ [Called VNoop] |})
  /\ (connect_to_email ;; connect_to_email) st
     = (Ok true, {| email_config := email_config st;
                    server := srv2;
                    trace := trace st ++ [Called VNoop; Called VNoop] |}).
Proof.
  intros Hcfg Hconn Hnoop Hstatus Hnoop2 Hstatus2.
  pose proof (connect_to_email_healthy _ _ _ _ _ Hcfg Hconn Hnoop Hstatus)
    as Hfirst.
  split; [exact Hfirst|].
  unfold mbind at 1. rewrite Hfirst.
  rewrite (connect_to_email_healthy _ cfg conn srv2 r2); cbn [email_config server trace];
    try assumption.
  rewrite <- app_assoc. reflexivity.
Qed.

(** *** Listing the folders *)

Lemma split_loop_without_separator (s : str) :
  forall cur, contains space_quote s = false -> split_loop s cur = [cur ++ s].
Proof.
  induction s as [|c t IH]; intros cur; cbn [split_loop contains].
  - now rewrite app_nil_r.
  - intros H. apply orb_false_elim in H as [Hhere Hrest].
    destruct t as [|d t'].
    + reflexivity.
    + cbn [space_quote is_prefix] in Hhere.
      rewrite andb_true_r, (N.eqb_sym space c), (N.eqb_sym quote d) in Hhere.
      rewrite Hhere, (IH (cur ++ [c]) Hrest), <- app_assoc. reflexivity.
Qed.

Lemma split_loop_nonempty (s : str) : forall cur, split_loop s cur <> [].
Proof.
  induction s as [|c t IH]; intros cur; cbn [split_loop]; [discriminate|].
  destruct t as [|d t']; [discriminate|].
  destruct ((c =? space) && (d =? quote)); [discriminate | apply IH].
Qed.

Lemma split_loop_with_separator (s : str) :
  forall cur, contains space_quote s = true ->
              (2 <= length (split_loop s cur))%nat.
Proof.
  induction s as [|c t IH]; intros cur; cbn [split_loop contains].
  - cbn. intros H; discriminate H.
  - destruct t as [|d t'].
    + cbn. rewrite andb_false_r. intros H; discriminate H.
    + cbn [space_quote is_prefix].
      rewrite andb_true_r, (N.eqb_sym space c), (N.eqb_sym quote d).
      destruct ((c =? space) && (d =? quote)) eqn:Hsep.
      * intros _. cbn [length].
        pose proof (split_loop_nonempty t' []) as Hne.
        destruct (split_loop t' []); [contradiction | cbn; lia].
      * cbn [orb]. apply IH.
Qed.

Lemma emit_twice (st : Session) (a b : event) :
  logged (logged st [a]) [b] = logged st [a; b].
Proof. unfold logged. cbn. rewrite <- app_assoc. reflexivity. Qed.

(** C3, amended: a LIST line without a trailing quoted token is skipped, with
    a message to [ctx.error] and no entry added, when it also holds no space
    followed by a double quote; when it does hold one, the fallback of lines
    240-244 takes the text after the last such separator, strips the double
    quotes around it, decodes it and adds it to the list (or reports the
    decoder's exception and adds nothing). *)
Theorem list_folders_step_without_quoted_token
        (folder_list : list str) (line : bytes) (st : Session) :
  let folder_str := decode_utf8_replace line in
  let raw := CtxInfo (T (lit "Raw folder: " ++ folder_str)) in
  search_quoted folder_str = None ->
  list_folders_step folder_list (IBytes line) st =
  if contains space_quote folder_str then
    match decode_modified_utf7
            (strip_char quote (last (split_space_quote folder_str) [])) with
    | Ok decoded_name =>
        (Ok (folder_list ++ [decoded_name]), logged st [raw])
    | Raise e =>
        if is_Exception e
        then (Ok folder_list,
              logged st [raw; CtxError (TExnTrace
                                          (lit "Error processing folder: ") e)])
        else (Raise e, logged st [raw])
    end
  else
    (Ok folder_list,
     logged st [raw; CtxError (T (lit "Could not parse folder structure: "
                                  ++ folder_str))]).
Proof.
  intros folder_str raw Hsearch.
  unfold list_folders_step, try_except, mbind, lift, ret, ctx_info, ctx_error,
    emit.
  cbn [folder_text]. fold folder_str. rewrite Hsearch.
  fold (logged st [raw]).
  destruct (contains space_quote folder_str) eqn:Hsep.
  - pose proof (split_loop_with_separator folder_str [] Hsep) as Hlen.
    fold (split_space_quote folder_str) in Hlen.
    apply Nat.leb_le in Hlen. rewrite Hlen.
    destruct (decode_modified_utf7 _) as [decoded_name|e]; [reflexivity|].
    destruct (is_Exception e); [|reflexivity].
    f_equal. apply emit_twice.
  - unfold split_space_quote.
    rewrite (split_loop_without_separator folder_str [] Hsep).
    cbn [length Nat.leb]. f_equal. apply emit_twice.
Qed.

(** *** Searching without a keyword *)


Lemma imap_query_cases (query : str) :
  imap_query query = if has_keyword query then query else lit "ALL".
Proof.
  unfold imap_query, has_keyword. destruct (existsb _ keywords); reflexivity.
Qed.



End Runs.


Lemma search_emails_limit_zero_returns_accepted_witness :
  exists (st' : @Session twenty_mailbox) (out : text)
         conn before after r message_ids results,
    @call twenty_mailbox conn
          (VSearch (@imap_query sample_library (lit "ALL"))) before
    = (Ok r, after) /\
    search_ids (data r) = Ok message_ids /\
    limit_message_ids 0 message_ids = message_ids /\
    trace st' = trace after ++ fetches message_ids /\
    Forall2 lists_id results (accepted_ids conn message_ids after) /\
    out = search_report (lit "ALL") (lit "INBOX") results /\
    (forallb snd (fetch_answers conn message_ids after) = true ->
     Forall2 lists_id results message_ids).
Proof.
  do 2 eexists.
  eapply (@search_emails_limit_zero_returns_accepted sample_library
            twenty_mailbox (lit "ALL") (lit "INBOX") twenty_session).
  - vm_compute. reflexivity.
  - right. eexists. reflexivity.
Defined.

Lemma connect_to_email_idempotent_witness :
  @connect_to_email twenty_mailbox twenty_session
  = (Ok true, {| email_config := email_config twenty_session;
                 server := tt;
                 trace := trace twenty_session ++ [Called VNoop] |})
  /\ (@connect_to_email twenty_mailbox ;; connect_to_email) twenty_session
     = (Ok true, {| email_config := email_config twenty_session;
                    server := tt;
                    trace := trace twenty_session
                             ++ [Called VNoop; Called VNoop] |}).
Proof.
  eapply (@connect_to_email_idempotent twenty_mailbox twenty_session);
    reflexivity.
Defined.

Lemma list_folders_step_without_quoted_token_witness :
  @list_folders_step empty_mailbox [] (IBytes bare_line) empty_session
  = (Ok [],
     logged empty_session
       [CtxInfo (T (lit "Raw folder: (\Noselect) NIL INBOX"));
        CtxError (T (lit "Could not parse folder structure: (\Noselect) NIL INBOX"))]).
Proof.
  exact (@list_folders_step_without_quoted_token empty_mailbox []
           bare_line empty_session eq_refl).
Defined.

(** What the defect of the decoder does to [list_folders]: the folder
    whose name makes the decoder raise is reported to [ctx.error] and
    missing from the list. *)
Example list_folders_drops_undecodable_name :
  @list_folders accented_mailbox accented_session
  = (Ok (TJson (JObj [(lit "folders", JArr [JStr (lit "INBOX")])])),
     logged accented_session
       [Called VNoop; Called VList;
        CtxInfo (T (lit "Raw folder: " ++ decode_utf8_replace inbox_line));
        CtxInfo (T (lit "Before decoding: INBOX"));
        CtxInfo (T (lit "After decoding: INBOX"));
        CtxInfo (T (lit "Raw folder: " ++ decode_utf8_replace accented_line));
        CtxInfo (T (lit "Before decoding: " ++ [amp; 233; dash]));
        CtxError (TExnTrace (lit "Error processing folder: ") ValueError);
        CtxInfo (TList (lit "Final folder list: ") [lit "INBOX"])]).
Proof. vm_compute. reflexivity. Qed.

(** C3, as the claim states it, fails: the first LIST line of the sample
    mailbox has no trailing quoted token, and the fallback split still turns
    it into an entry of the returned list; the second line, which holds no
    quote at all, is the one that is skipped. *)
Lemma list_folders_parses_unquoted_line :
  search_quoted (decode_utf8_replace unquoted_line) = None /\
  search_quoted (decode_utf8_replace bare_line) = None /\
  fst (@list_folders empty_mailbox empty_session)
  = Ok (TJson (JObj [(lit "folders",
                      JArr [JStr (lit "/" ++ [quote] ++ lit " INBOX")])])).
Proof. repeat split; vm_compute; reflexivity. Qed.

(** C10, as the claim states it, fails: with a limit of zero and three ids
    found, a server that answers NO to every FETCH makes the search return
    the text for an empty result after it has fetched the three ids; it
    returns none of the matching messages. *)
Lemma search_emails_limit_zero_returns_none :
  search_ids [IBytes (lit "1 2 3")] = Ok [lit "1"; lit "2"; lit "3"] /\
  @search_emails sample_library refusing_mailbox
                 (lit "ALL") (lit "INBOX") 0 refusing_session
  = (Ok (no_emails_found (lit "ALL")),
     logged refusing_session
       [Called VNoop; Called (VSelect (lit "INBOX"));
        Called (VSearch (lit "ALL"));
        Called (VFetch (lit "1")); Called (VFetch (lit "2"));
        Called (VFetch (lit "3"))]) /\
  ~ (exists results,
       fst (@search_emails sample_library refusing_mailbox
              (lit "ALL") (lit "INBOX") 0 refusing_session)
       = Ok (search_report (lit "ALL") (lit "INBOX") results) /\
       Forall2 lists_id results [lit "1"; lit "2"; lit "3"]).
Proof.
  split; [reflexivity|]. split; [reflexivity|].
  intros (results & Hout & Hall).
  inversion Hall; subst. vm_compute in Hout. discriminate Hout.
Qed.


(** The example of the design: five of twenty. *)
Example search_emails_five_of_twenty :
  trace (snd (@search_emails sample_library twenty_mailbox
                (lit "ALL") (lit "INBOX") 5 twenty_session))
  = [Called VNoop; Called (VSelect (lit "INBOX")); Called (VSearch (lit "ALL"))]
    ++ fetches (map lit ["16"; "17"; "18"; "19"; "20"]%string).
Proof. vm_compute. reflexivity. Qed.

Lemma read_email_body_field_witness :
  exists conn message_set before r msg,
    encode_utf8 (lit "7") = Ok message_set /\
    @call long_body_mailbox conn (VFetch message_set) before
    = (Ok r, {| email_config := email_config long_body_session;
                server := tt;
                trace := [Called VNoop; Called (VSelect (lit "INBOX"));
                          Called (VFetch (lit "7"))] |}) /\
    @fetched_message sample_library (data r) = Ok msg /\
    let body := get_email_body msg in
    ((2000 < length body)%nat /\
     json_field (lit "body")
       [(lit "id", JStr (lit "7")); (lit "subject", JStr (lit "No Subject"));
        (lit "from", JStr (lit "Unknown")); (lit "to", JStr (lit "Unknown"));
        (lit "date", JStr (lit "Unknown"));
        (lit "body", JStr (repeat 97 2000 ++ lit "..."))]
     = Some (JStr (firstn 2000 body ++ lit "...")))
    \/ ((length body <= 2000)%nat /\
        json_field (lit "body")
          [(lit "id", JStr (lit "7")); (lit "subject", JStr (lit "No Subject"));
           (lit "from", JStr (lit "Unknown")); (lit "to", JStr (lit "Unknown"));
           (lit "date", JStr (lit "Unknown"));
           (lit "body", JStr (repeat 97 2000 ++ lit "..."))]
        = Some (JStr body)).
Proof.
  apply (@read_email_body_field sample_library long_body_mailbox
           (lit "7") (lit "INBOX") long_body_session).
  vm_compute. reflexivity.
Defined.

(** * Further properties *)

(** ** The modified-UTF7 decoder *)

Lemma find_char_cons_none (c x : N) (s : str) :
  find_char c (x :: s) = None -> (x =? c) = false /\ find_char c s = None.
Proof.
  cbn [find_char]. destruct (x =? c); [discriminate|].
  destruct (find_char c s); [discriminate | auto].
Qed.

Lemma find_char_skipn_none (c : N) (s : str) (k : nat) :
  find_char c s = None -> find_char c (skipn k s) = None.
Proof.
  revert s. induction k as [|k IH]; intros [|x s] H; cbn [skipn]; auto.
  apply find_char_cons_none in H as [_ H]. auto.
Qed.

Lemma find_from_shift (c : N) (s t : str) (k : nat) :
  find_from c (s ++ t) (length s + k)
  = option_map (fun j => (length s + j)%nat) (find_from c t k).
Proof.
  unfold find_from. rewrite skipn_app.
  replace (length s + k - length s)%nat with k by lia.
  rewrite (skipn_all2 s) by lia. cbn [app].
  destruct (find_char c (skipn k t)); cbn; [f_equal; lia | reflexivity].
Qed.

Lemma slice_shift (s t : str) (a b : nat) :
  slice (s ++ t) (length s + a) (length s + b) = slice t a b.
Proof.
  unfold slice. rewrite skipn_app.
  replace (length s + a - length s)%nat with a by lia.
  rewrite (skipn_all2 s) by lia. cbn [app]. f_equal. lia.
Qed.

(** The loop does not look back: run on [s ++ t] from the end of [s] it
    does what it does on [t] from the start. *)
Lemma decode_loop_shift (s t : str) (fuel : nat) :
  forall (i : nat) (res : str),
    decode_loop fuel (s ++ t) (length s + i) res = decode_loop fuel t i res.
Proof.
  induction fuel as [|fuel IH]; intros i res; cbn [decode_loop]; [reflexivity|].
  rewrite length_app, app_nth2_plus.
  replace (length s + i <? length s + length t)%nat with (i <? length t)%nat
    by (destruct (Nat.ltb_spec i (length t)), (Nat.ltb_spec (length s + i) (length s + length t)); lia || reflexivity).
  replace (length s + i + 1 <? length s + length t)%nat
    with (i + 1 <? length t)%nat
    by (destruct (Nat.ltb_spec (i + 1) (length t)), (Nat.ltb_spec (length s + i + 1) (length s + length t)); lia || reflexivity).
  replace (length s + i + 1)%nat with (length s + (i + 1))%nat by lia.
  replace (length s + i + 2)%nat with (length s + (i + 2))%nat by lia.
  rewrite find_from_shift.
  destruct (i <? length t)%nat; [|reflexivity].
  destruct ((nth i t 0 =? amp) && (i + 1 <? length t)%nat); [|apply IH].
  destruct (find_from dash t (i + 1)) as [j|]; cbn [option_map]; [|apply IH].
  replace (length s + j =? length s + (i + 1))%nat with (j =? i + 1)%nat
    by (destruct (Nat.eqb_spec j (i + 1)), (Nat.eqb_spec (length s + j) (length s + (i + 1))); lia || reflexivity).
  rewrite slice_shift.
  replace (length s + j + 1)%nat with (length s + (j + 1))%nat by lia.
  destruct (j =? i + 1)%nat; [apply IH|].
  destruct (decode_payload _) as [txt|e]; [apply IH|].
  destruct (caught_by_fallback e); [apply IH | reflexivity].
Qed.

(** The text decoded so far is only ever extended. *)
Lemma decode_loop_accumulates (u : str) (fuel : nat) :
  forall (i : nat) (res : str),
    decode_loop fuel u i res
    = bind (decode_loop fuel u i []) (fun r => Ok (res ++ r)).
Proof.
  induction fuel as [|fuel IH]; intros i res; cbn [decode_loop].
  - cbn. now rewrite app_nil_r.
  - assert (Hstep : forall i' x,
               decode_loop fuel u i' (res ++ x)
               = bind (decode_loop fuel u i' ([] ++ x))
                      (fun r => Ok (res ++ r))).
    { intros i' x. rewrite (IH i' (res ++ x)), (IH i' ([] ++ x)).
      destruct (decode_loop fuel u i' []) as [r|e]; cbn; [|reflexivity].
      now rewrite app_assoc. }
    destruct (i <? length u)%nat; [|cbn; now rewrite app_nil_r].
    destruct ((nth i u 0 =? amp) && (i + 1 <? length u)%nat); [|apply Hstep].
    destruct (find_from dash u (i + 1)) as [j|]; [|apply Hstep].
    destruct (j =? i + 1)%nat; [apply Hstep|].
    destruct (decode_payload _) as [txt|e]; [apply Hstep|].
    destruct (caught_by_fallback e); [apply Hstep | reflexivity].
Qed.

(** Characters other than the ampersand are copied one by one. *)
Lemma decode_loop_copies (b : str) :
  forall (a t : str) (fuel : nat) (res : str),
    find_char amp b = None ->
    decode_loop (length b + fuel) ((a ++ b) ++ t) (length a) res
    = decode_loop fuel ((a ++ b) ++ t) (length a + length b) (res ++ b).
Proof.
  induction b as [|c b IH]; intros a t fuel res Hb.
  - cbn [length Nat.add]. now rewrite Nat.add_0_r, !app_nil_r.
  - apply find_char_cons_none in Hb as [Hc Hb].
    cbn [length Nat.add decode_loop].
    assert (Hlt : (length a <? length ((a ++ c :: b) ++ t))%nat = true).
    { apply Nat.ltb_lt. rewrite !length_app. cbn. lia. }
    assert (Hnth : nth (length a) ((a ++ c :: b) ++ t) 0 = c).
    { rewrite <- app_assoc.
      rewrite (app_nth2 a) by lia. now rewrite Nat.sub_diag. }
    rewrite Hlt, Hnth, Hc. cbn [andb].
    replace (a ++ c :: b) with ((a ++ [c]) ++ b) by now rewrite <- app_assoc.
    replace (length a + 1)%nat with (length (a ++ [c]))
      by (rewrite length_app; reflexivity).
    rewrite (IH (a ++ [c]) t fuel (res ++ [c]) Hb).
    rewrite length_app, <- !app_assoc. cbn [length app]. f_equal. lia.
Qed.

Lemma decode_modified_utf7_as_loop (t : str) :
  decode_modified_utf7 t = decode_loop (length t) t 0 [].
Proof. destruct t; reflexivity. Qed.

Lemma decode_literal_prefix (s t : str) :
  find_char amp s = None ->
  decode_modified_utf7 (s ++ t)
  = bind (decode_modified_utf7 t) (fun r => Ok (s ++ r)).
Proof.
  intros Hs. rewrite !decode_modified_utf7_as_loop, length_app.
  pose proof (decode_loop_copies s [] t (length t) [] Hs) as Hcopy.
  cbn [app length] in Hcopy. rewrite Hcopy.
  replace (0 + length s)%nat with (length s + 0)%nat by lia.
  rewrite decode_loop_shift. apply decode_loop_accumulates.
Qed.

Lemma decode_without_ampersand (s : str) :
  find_char amp s = None -> decode_modified_utf7 s = Ok s.
Proof.
  intros Hs. pose proof (decode_literal_prefix s [] Hs) as H.
  change (decode_modified_utf7 []) with (@Ok str []) in H.
  cbn [bind] in H. rewrite !app_nil_r in H. exact H.
Qed.

(** X1: the text before the first ampersand is copied as it is and has no
    influence on the decoding of what follows; a name without ampersand is
    returned unchanged. *)
Theorem decode_modified_utf7_literal_prefix (s t : str) :
  find_char amp s = None ->
  decode_modified_utf7 (s ++ t)
  = bind (decode_modified_utf7 t) (fun r => Ok (s ++ r))
  /\ decode_modified_utf7 s = Ok s.
Proof.
  intros Hs. split; [apply decode_literal_prefix | apply decode_without_ampersand];
    exact Hs.
Qed.

(** Without a dash no escape is ever closed, and the text comes back as it
    is. *)
Lemma decode_loop_without_dash (s : str) (fuel : nat) :
  find_char dash s = None ->
  forall (i : nat) (res : str),
    (length s <= fuel + i)%nat ->
    decode_loop fuel s i res = Ok (res ++ skipn i s).
Proof.
  intros Hs. induction fuel as [|fuel IH]; intros i res Hlen;
    cbn [decode_loop].
  - rewrite skipn_all2 by lia. now rewrite app_nil_r.
  - destruct (i <? length s)%nat eqn:Hi.
    + apply Nat.ltb_lt in Hi.
      assert (Hskip : skipn i s = nth i s 0 :: skipn (i + 1) s).
      { clear -Hi. revert i Hi. induction s as [|x s IHs]; intros i Hi.
        - cbn in Hi. lia.
        - destruct i as [|i]; [reflexivity|].
          cbn [skipn nth Nat.add]. apply IHs. cbn in Hi. lia. }
      assert (Hfind : find_from dash s (i + 1) = None).
      { unfold find_from. now rewrite find_char_skipn_none. }
      rewrite Hfind, Hskip.
      destruct ((nth i s 0 =? amp) && (i + 1 <? length s)%nat) eqn:Hamp.
      * apply andb_prop in Hamp as [Hamp _]. apply N.eqb_eq in Hamp.
        rewrite IH by lia. rewrite Hamp, <- app_assoc. reflexivity.
      * rewrite IH by lia. rewrite <- app_assoc. reflexivity.
    + apply Nat.ltb_ge in Hi. rewrite skipn_all2 by lia.
      now rewrite app_nil_r.
Qed.

(** X2: a wire name without any dash is returned unchanged, ampersands
    included: an escape that is never closed is literal text. *)
Theorem decode_modified_utf7_without_dash (s : str) :
  find_char dash s = None -> decode_modified_utf7 s = Ok s.
Proof.
  intros Hs. rewrite decode_modified_utf7_as_loop.
  rewrite (decode_loop_without_dash s (length s) Hs 0 []) by lia.
  reflexivity.
Qed.

(** X3: the decoder can fail in one way only: with the plain [ValueError]
    of the Base64 decoder, and only on a name that holds a character
    outside ASCII.  On a wire name made of ASCII characters it returns a
    string, whatever its escapes hold. *)
Theorem decode_modified_utf7_fails_only_outside_ascii (s : str) (e : exn) :
  decode_modified_utf7 s = Raise e -> e = ValueError /\ is_ascii s = false.
Proof.
  intros H. split; [exact (decode_modified_utf7_raises s e H)|].
  destruct (is_ascii s) eqn:Hascii; [|reflexivity].
  destruct (decode_modified_utf7_ascii_returns s Hascii) as [t Ht].
  congruence.
Qed.

(** ** The header text decoder *)

Lemma ecre_match_here_needs_marker (s : str) :
  is_prefix encoded_word_marker s = false -> ecre_match_here s = None.
Proof.
  destruct s as [|c1 [|c2 t]]; try reflexivity.
  cbn [encoded_word_marker is_prefix ecre_match_here].
  rewrite andb_true_r, (N.eqb_sym eq_sign c1), (N.eqb_sym question c2).
  now intros ->.
Qed.

Lemma ecre_search_needs_marker (s : str) :
  contains encoded_word_marker s = false -> ecre_search s = false.
Proof.
  induction s as [|c t IH]; cbn [contains ecre_search]; intros H;
    apply orb_false_elim in H as [Hhere Hrest].
  - reflexivity.
  - rewrite (ecre_match_here_needs_marker _ Hhere). auto.
Qed.

(** X4: a header that nowhere holds the two characters [=?] is returned as
    it is, whatever else it holds. *)
Theorem decode_email_header_plain {lib : Library} (header : str) :
  contains encoded_word_marker header = false ->
  decode_email_header header = Ok header.
Proof.
  intros H. unfold decode_email_header, decode_header.
  rewrite (ecre_search_needs_marker _ H). reflexivity.
Qed.

Lemma decode_word_raises (w : word) (e : exn) :
  decode_word w = Raise e -> e = HeaderParseError.
Proof.
  destruct w as [encoded_string [[encoding charset]|]]; cbn [decode_word];
    [|discriminate].
  destruct (encoding =? 113); [discriminate|].
  set (padded := if (0 <? _)%nat then _ else _).
  destruct (truthy padded); [|discriminate].
  destruct (a2b_base64 (raw_unicode_escape padded)) as [b|e'] eqn:Hb;
    [discriminate|].
  apply a2b_loop_raises in Hb. subst e'. congruence.
Qed.

Lemma decode_words_raises (ws : list word) (e : exn) :
  decode_words ws = Raise e -> e = HeaderParseError.
Proof.
  induction ws as [|w rest IH]; cbn [decode_words]; [discriminate|].
  destruct (decode_word w) as [d|e'] eqn:Hw; cbn [bind].
  - destruct (decode_words rest) as [ds|e'']; cbn [bind]; [discriminate|].
    intros H. injection H as <-. now apply IH.
  - intros H. injection H as <-. exact (decode_word_raises _ _ Hw).
Qed.

(** X5: the header decoder can fail in one way only: with the
    [HeaderParseError] that the library raises for a Base64 word it cannot
    decode; no codec error and no unknown charset ever leaves it. *)
Theorem decode_email_header_fails_only_on_base64 {lib : Library}
        (header : str) (e : exn) :
  decode_email_header header = Raise e -> e = HeaderParseError.
Proof.
  unfold decode_email_header, decode_header.
  destruct (negb (ecre_search header)); [discriminate|].
  destruct (decode_words _) as [decoded|e'] eqn:Hw; cbn [bind];
    [discriminate|].
  intros H. injection H as <-. exact (decode_words_raises _ _ Hw).
Qed.

(** ** The MIME body extractor *)

Lemma last_text_app (ctype : str) (l1 l2 : list message) :
  last_text ctype (l1 ++ l2)
  = match last_text ctype l2 with
    | Some t => Some t
    | None => last_text ctype l1
    end.
Proof.
  induction l1 as [|p l1 IH]; cbn [app last_text].
  - destruct (last_text ctype l2); reflexivity.
  - rewrite IH. destruct (last_text ctype l2); reflexivity.
Qed.

Lemma text_of_container (ctype : str) (h : headers) (parts : list message) :
  text_of ctype (Multipart h parts) = None.
Proof.
  unfold text_of. cbn [get_payload_decoded].
  destruct (is_attachment _); reflexivity.
Qed.

Lemma text_of_attachment (ctype : str) (part : message) :
  is_attachment part = true -> text_of ctype part = None.
Proof. unfold text_of. now intros ->. Qed.

Lemma walk_parts (h : headers) (parts : list message) :
  walk (Multipart h parts) = Multipart h parts :: flat_map walk parts.
Proof. reflexivity. Qed.

Lemma last_text_walk_parts (ctype : str) (h : headers)
      (parts : list message) :
  last_text ctype (walk (Multipart h parts))
  = last_text ctype (flat_map walk parts).
Proof.
  rewrite walk_parts. cbn [last_text]. rewrite text_of_container.
  destruct (last_text ctype _); reflexivity.
Qed.

(** The body of a multipart message depends on the texts of its parts
    only. *)
Lemma get_email_body_same_texts (h : headers) (parts parts' : list message) :
  (forall ctype, last_text ctype (flat_map walk parts)
                 = last_text ctype (flat_map walk parts')) ->
  get_email_body (Multipart h parts) = get_email_body (Multipart h parts').
Proof.
  intros H. rewrite !get_email_body_multipart_eq, !last_text_walk_parts, !H.
  reflexivity.
Qed.

(** X6: a part marked as an attachment that has no sub-parts counts for
    nothing: the body is the same with it and without it, wherever it
    stands and whatever its type and payload are. *)
Theorem get_email_body_ignores_attachment
        (h ha : headers) (payload : option bytes)
        (before after : list message) :
  is_attachment (Leaf ha payload) = true ->
  get_email_body (Multipart h (before ++ Leaf ha payload :: after))
  = get_email_body (Multipart h (before ++ after)).
Proof.
  intros Hatt. apply get_email_body_same_texts. intros ctype.
  rewrite !flat_map_app. cbn [flat_map walk app].
  rewrite !last_text_app. cbn [last_text].
  rewrite (text_of_attachment _ _ Hatt).
  destruct (last_text ctype (flat_map walk after)); reflexivity.
Qed.

(** X7: nesting does not matter: a multipart part inside a multipart
    message gives the body that its sub-parts would give in its place, even
    when the inner part is itself marked as an attachment. *)
Theorem get_email_body_flattens_nesting
        (h hi : headers) (inner before after : list message) :
  get_email_body (Multipart h (before ++ Multipart hi inner :: after))
  = get_email_body (Multipart h (before ++ inner ++ after)).
Proof.
  apply get_email_body_same_texts. intros ctype.
  rewrite !flat_map_app. cbn [flat_map]. rewrite walk_parts.
  cbn [app]. rewrite !last_text_app. cbn [last_text].
  rewrite !last_text_app, text_of_container.
  destruct (last_text ctype (flat_map walk after)); [reflexivity|].
  destruct (last_text ctype (flat_map walk inner)); reflexivity.
Qed.

(** ** The connection manager *)

Section Connection.

Context {mbox : Mailbox}.

(** The probe never raises and never touches [email_config]; it says yes
    only on a configuration that holds a connection. *)
Lemma probe_outcome (st st' : Session) (r : result bool) :
  probe st = (r, st') ->
  email_config st' = email_config st /\
  (exists alive, r = Ok alive) /\
  (r = Ok true -> holds_connection st').
Proof.
  unfold probe, try_except, mbind, ret, caught_all, holds_connection.
  destruct (email_config st) as [cfg|] eqn:Hcfg.
  - destruct (connection cfg) as [conn|] eqn:Hconn.
    + destruct (call conn VNoop st) as [[rep|e] s1] eqn:Hcall;
        apply call_trace in Hcall as [_ Hsame]; rewrite Hcfg in Hsame;
        intros H; injection H as <- <-;
        (split; [exact Hsame|]); (split; [eauto|]); eauto.
    + intros H. injection H as <- <-.
      split; [exact Hcfg|]. split; [eauto | discriminate].
  - intros H. injection H as <- <-.
    split; [exact Hcfg|]. split; [eauto | discriminate].
Qed.

(** The login returns [True] with a connection stored and [False] with
    [email_config] as it was. *)
Lemma login_outcome (st st' : Session) (r : result bool) :
  login st = (r, st') ->
  (r = Ok true -> holds_connection st') /\
  (r = Ok false -> email_config st' = email_config st).
Proof.
  unfold login, try_except, mbind, ret, ctx_error, ctx_info, emit,
    set_email_config, open_connection, call, holds_connection.
  intros H.
  destruct (optional_falsy _ || optional_falsy _).
  - cbn in H. injection H as <- <-. cbn.
    repeat split; try discriminate; reflexivity.
  - destruct (imap_open _ _ _) as [srv1 [conn|e]].
    + cbn [server email_config trace] in H.
      destruct (imap_call srv1 conn _) as [srv2 [rep|e]].
      * injection H as <- <-. cbn. repeat split; try discriminate.
        intros _. do 2 eexists. split; reflexivity.
      * destruct (is_Exception e) eqn:He; injection H as <- <-; cbn;
          repeat split; try discriminate; reflexivity.
    + destruct (is_Exception e) eqn:He; injection H as <- <-; cbn;
        repeat split; try discriminate; reflexivity.
Qed.

Lemma connect_to_email_outcome (st st' : Session) (r : result bool) :
  connect_to_email st = (r, st') ->
  (r = Ok true -> holds_connection st') /\
  (r = Ok false -> email_config st' = email_config st).
Proof.
  unfold connect_to_email, mbind.
  destruct (probe st) as [rp s1] eqn:Hprobe.
  apply probe_outcome in Hprobe as (Hsame & [alive ->] & Hheld).
  destruct alive.
  - unfold ret. intros H. injection H as <- <-.
    repeat split; try discriminate. auto.
  - intros H. apply login_outcome in H as (Htrue & Hfalse).
    repeat split; auto. intros Hr. rewrite (Hfalse Hr). exact Hsame.
Qed.

(** X8: whenever [connect_to_email] returns [True], [email_config] holds a
    connection afterwards, so the tools that go on find one to talk to. *)
Theorem connect_to_email_true_holds_connection (st st' : Session) :
  connect_to_email st = (Ok true, st') -> holds_connection st'.
Proof.
  intros H. apply connect_to_email_outcome in H as (Htrue & _). auto.
Qed.

(** X9: whenever [connect_to_email] returns [False], [email_config] is what
    it was before the call: a connection found dead stays recorded, and it
    is probed again by the next call. *)
Theorem connect_to_email_false_keeps_config (st st' : Session) :
  connect_to_email st = (Ok false, st') ->
  email_config st' = email_config st.
Proof.
  intros H. apply connect_to_email_outcome in H as (_ & Hfalse). auto.
Qed.

Lemma login_false_reports (st st' : Session) :
  login st = (Ok false, st') ->
  exists (before : Session) (m : text),
    ctx_error m before = (Ok tt, st') /\
    (m = credentials_not_found
     \/ exists e, is_Exception e = true
                  /\ m = TExn (lit "Failed to connect to Yahoo Mail: ") e).
Proof.
  unfold login, try_except, mbind, ret, ctx_info, set_email_config,
    open_connection, call.
  intros H.
  destruct (optional_falsy _ || optional_falsy _).
  - destruct (ctx_error _ st) as [[[]|e] s1] eqn:Herr;
      [|unfold ctx_error, emit in Herr; discriminate Herr].
    injection H as <-. exists st, credentials_not_found.
    split; [exact Herr | now left].
  - destruct (imap_open _ _ _) as [srv1 [conn|e]].
    + cbn [server email_config trace] in H.
      destruct (imap_call srv1 conn _) as [srv2 [rep|e]].
      * unfold emit in H. discriminate H.
      * destruct (is_Exception e) eqn:He; [|discriminate H].
        destruct (ctx_error _ _) as [[[]|e1] s1] eqn:Herr in H;
          [|unfold ctx_error, emit in Herr; discriminate Herr].
        injection H as <-. do 2 eexists. split; [exact Herr|].
        right. eauto.
    + destruct (is_Exception e) eqn:He; [|discriminate H].
      destruct (ctx_error _ _) as [[[]|e1] s1] eqn:Herr in H;
        [|unfold ctx_error, emit in Herr; discriminate Herr].
      injection H as <-. do 2 eexists. split; [exact Herr|].
      right. eauto.
Qed.

(** X10: [connect_to_email] never returns [False] in silence: its last
    action was then a call of [ctx.error], either with the message about the
    missing credentials or with the message that the connection failed,
    which quotes an [Exception] raised while connecting or logging in. *)
Theorem connect_to_email_false_reports (st st' : Session) :
  connect_to_email st = (Ok false, st') ->
  exists (before : Session) (m : text),
    ctx_error m before = (Ok tt, st') /\
    (m = credentials_not_found
     \/ exists e, is_Exception e = true
                  /\ m = TExn (lit "Failed to connect to Yahoo Mail: ") e).
Proof.
  unfold connect_to_email, mbind.
  destruct (probe st) as [[[|]|e] s1]; [discriminate| |discriminate].
  apply login_false_reports.
Qed.

(** X11: on a process that has not connected yet, a missing or empty
    YAHOO_EMAIL or YAHOO_PASSWORD makes [connect_to_email] return [False]
    after one message to [ctx.error]; no connection is opened. *)
Theorem connect_to_email_without_credentials (st : Session) :
  email_config st = None ->
  optional_falsy (environ (lit "YAHOO_EMAIL"))
  || optional_falsy (environ (lit "YAHOO_PASSWORD")) = true ->
  connect_to_email st
  = (Ok false,
     {| email_config := None;
        server := server st;
        trace := trace st ++ [CtxError (T (lit "Email credentials not found. Set YAHOO_EMAIL and YAHOO_PASSWORD environment variables."))] |}).
Proof.
  intros Hcfg Hcred.
  unfold connect_to_email, probe, login, mbind, try_except, ret, ctx_error,
    emit.
  rewrite Hcfg, Hcred. cbn. rewrite Hcfg. reflexivity.
Qed.

(** X12: a connection that no longer answers is replaced: when the probe
    raises and the credentials are set, [connect_to_email] opens a
    connection to the recorded server and port, logs in with the
    credentials of the environment, stores the new connection and returns
    [True].  The dead connection gets no LOGOUT. *)
Theorem connect_to_email_reconnects
        (st : Session) (cfg : EmailConfig) (conn conn' : Conn)
        (srv1 srv2 srv3 : Server) (e : exn) (user pass : str) (r : reply) :
  email_config st = Some cfg ->
  connection cfg = Some conn ->
  imap_call (server st) conn VNoop = (srv1, Raise e) ->
  environ (lit "YAHOO_EMAIL") = Some user -> truthy user = true ->
  environ (lit "YAHOO_PASSWORD") = Some pass -> truthy pass = true ->
  imap_open srv1 (imap_server cfg) (imap_port cfg) = (srv2, Ok conn') ->
  imap_call srv2 conn' (VLogin user pass) = (srv3, Ok r) ->
  connect_to_email st
  = (Ok true,
     {| email_config := Some {| username := user;
                                password := pass;
                                imap_server := default_server;
                                imap_port := default_port;
                                connection := Some conn' |};
        server := srv3;
        trace := trace st ++ [Called VNoop;
                              Opened (imap_server cfg) (imap_port cfg);
                              Called (VLogin user pass);
                              CtxInfo (T (lit "Successfully connected to "
                                          ++ user))] |}).
Proof.
  intros Hcfg Hconn Hnoop Huser Hu Hpass Hp Hopen Hlogin.
  unfold connect_to_email, probe, login, mbind, try_except, ret, ctx_info,
    emit, set_email_config, open_connection, call, caught_all.
  rewrite Hcfg, Hconn, Hnoop. cbn [email_config server trace].
  rewrite Huser, Hpass. unfold optional_falsy. rewrite Hu, Hp.
  cbn [negb orb str_of_optional email_config server trace].
  rewrite Hopen. cbn [email_config server trace].
  rewrite Hlogin. cbn [email_config server trace].
  rewrite <- !app_assoc. reflexivity.
Qed.

End Connection.

(** ** Listing the folders *)

Lemma span_not_quote_name (name rest : str) :
  find_char quote name = None ->
  span_not_quote (name ++ quote :: rest) = (name, quote :: rest).
Proof.
  induction name as [|c name IH]; intros H; cbn [app span_not_quote].
  - reflexivity.
  - apply find_char_cons_none in H as [Hc H]. rewrite Hc, (IH H).
    reflexivity.
Qed.

Lemma span_not_quote_stops (p x : str) :
  exists run after,
    span_not_quote (p ++ quote :: x) = (run, quote :: after)
    /\ (length x <= length after)%nat.
Proof.
  induction p as [|c p (run & after & IH & Hlen)]; cbn [app span_not_quote].
  - exists [], x. split; [reflexivity | lia].
  - destruct (c =? quote) eqn:Hc.
    + apply N.eqb_eq in Hc. subst c. exists [], (p ++ quote :: x).
      split; [reflexivity|]. rewrite length_app. cbn. lia.
    + rewrite IH. exists (c :: run), after. split; [reflexivity | exact Hlen].
Qed.

Lemma at_end_long (s : str) : (2 <= length s)%nat -> at_end s = false.
Proof. destruct s as [|a [|b s]]; cbn; intros H; (lia || reflexivity). Qed.

Lemma search_quoted_last_token (prefix name : str) :
  truthy name = true ->
  find_char quote name = None ->
  search_quoted (prefix ++ quote :: name ++ [quote]) = Some name.
Proof.
  intros Hne Hname.
  induction prefix as [|c prefix IH]; cbn [app].
  - destruct name as [|n0 name]; [discriminate|].
    cbn [search_quoted match_quoted_here]. rewrite N.eqb_refl.
    rewrite (span_not_quote_name (n0 :: name) [] Hname). reflexivity.
  - assert (Hhere : match_quoted_here
                      (c :: prefix ++ quote :: name ++ [quote]) = None).
    { cbn [match_quoted_here]. destruct (c =? quote); [|reflexivity].
      destruct (span_not_quote_stops prefix (name ++ [quote]))
        as (run & after & Hspan & Hlen).
      rewrite Hspan.
      rewrite at_end_long, andb_false_r; [reflexivity|].
      rewrite length_app in Hlen. cbn in Hlen.
      destruct name; [discriminate | cbn in Hlen; lia]. }
    cbn [search_quoted]. rewrite Hhere. exact IH.
Qed.

Section Folders.

Context {mbox : Mailbox}.

(** X13: a LIST line that ends in a quoted name without ampersand gives
    that very name, whatever stands before it (flags, delimiter, other
    quoted tokens): the folder list grows by the name, after three messages
    to [ctx.info]. *)
Theorem list_folders_step_quoted_name
        (folder_list : list str) (line : bytes) (prefix name : str)
        (st : Session) :
  decode_utf8_replace line = prefix ++ quote :: name ++ [quote] ->
  truthy name = true ->
  find_char quote name = None ->
  find_char amp name = None ->
  search_quoted (decode_utf8_replace line) = Some name /\
  list_folders_step folder_list (IBytes line) st
  = (Ok (folder_list ++ [name]),
     logged st [CtxInfo (T (lit "Raw folder: " ++ decode_utf8_replace line));
                CtxInfo (T (lit "Before decoding: " ++ name));
                CtxInfo (T (lit "After decoding: " ++ name))]).
Proof.
  intros Hline Hne Hquote Hamp.
  assert (Hsearch : search_quoted (decode_utf8_replace line) = Some name).
  { rewrite Hline. now apply search_quoted_last_token. }
  split; [exact Hsearch|].
  unfold list_folders_step, try_except, mbind, lift, ret, ctx_info, emit.
  cbn [folder_text]. rewrite Hsearch, (decode_without_ampersand name Hamp).
  unfold logged. cbn [email_config server trace].
  rewrite <- !app_assoc. reflexivity.
Qed.

Lemma list_folders_step_grows (folder_list out : list str) (folder : item)
      (st st' : Session) :
  list_folders_step folder_list folder st = (Ok out, st') ->
  exists added, out = folder_list ++ added /\ (length added <= 1)%nat.
Proof.
  unfold list_folders_step, try_except, mbind, lift, ret, ctx_info,
    ctx_error, emit.
  intros H. follow_run H; injection H as <- <-;
    first [ exists []; split; [now rewrite app_nil_r | cbn; lia]
          | eexists [_]; split; [reflexivity | cbn; lia] ].
Qed.

(** X14: the loop over the LIST reply never drops or reorders what it has
    collected, and a line adds one name at most: the folder list it returns
    starts with the list it was given and is longer by no more than the
    number of lines. *)
Theorem list_folders_one_entry_per_line (folders : list item) :
  forall (folder_list out : list str) (st st' : Session),
    for_each list_folders_step folders folder_list st = (Ok out, st') ->
    exists added,
      out = folder_list ++ added /\ (length added <= length folders)%nat.
Proof.
  induction folders as [|folder rest IH]; intros folder_list out st st';
    cbn [for_each].
  - unfold ret. intros H. injection H as <- <-. exists [].
    split; [now rewrite app_nil_r | cbn; lia].
  - unfold mbind.
    destruct (list_folders_step folder_list folder st) as [[mid|e] s1]
      eqn:Hstep; [|discriminate].
    intros H. apply IH in H as (added2 & -> & Hlen2).
    apply list_folders_step_grows in Hstep as (added1 & -> & Hlen1).
    exists (added1 ++ added2). split; [now rewrite app_assoc|].
    rewrite length_app. cbn [length]. lia.
Qed.

End Folders.

(** ** Searching and counting *)

Lemma split_ws_loop_token (t rest cur : bytes) :
  forallb (fun c => negb (is_ascii_space c)) t = true ->
  split_ws_loop (t ++ rest) cur = split_ws_loop rest (cur ++ t).
Proof.
  revert cur. induction t as [|c t IH]; intros cur H; cbn [app].
  - now rewrite app_nil_r.
  - cbn [forallb] in H. apply andb_prop in H as [Hc H].
    cbn [split_ws_loop]. apply negb_true_iff in Hc. rewrite Hc.
    rewrite (IH (cur ++ [c]) H), <- app_assoc. reflexivity.
Qed.

Lemma bytes_split_join (tokens : list bytes) :
  forallb is_token tokens = true ->
  bytes_split (join_spaces tokens) = tokens.
Proof.
  unfold bytes_split.
  induction tokens as [|t rest IH]; intros H; [reflexivity|].
  cbn [forallb] in H. apply andb_prop in H as [Ht Hrest].
  unfold is_token in Ht. apply andb_prop in Ht as [Hne Hws].
  destruct rest as [|t2 rest].
  - cbn [join_spaces].
    rewrite <- (app_nil_r t) at 1. rewrite split_ws_loop_token by exact Hws.
    cbn [split_ws_loop app]. now rewrite Hne.
  - change (join_spaces (t :: t2 :: rest))
      with (t ++ space :: join_spaces (t2 :: rest)).
    rewrite split_ws_loop_token by exact Hws.
    cbn [split_ws_loop app]. change (is_ascii_space space) with true.
    cbn iota. rewrite Hne, (IH Hrest). reflexivity.
Qed.

(** X15: the ids that the tools take from a SEARCH reply are the ids that
    the server wrote: a reply whose first item lists ids separated by single
    spaces is split into exactly these ids, in order. *)
Theorem search_ids_of_joined_reply (tokens : list bytes) (more : list item) :
  forallb is_token tokens = true ->
  search_ids (IBytes (join_spaces tokens) :: more) = Ok tokens.
Proof.
  intros H. cbn [search_ids]. now rewrite bytes_split_join.
Qed.

Lemma contains_app_r (needle a s : str) :
  contains needle s = true -> contains needle (a ++ s) = true.
Proof.
  intros H. induction a as [|c a IH]; cbn [app contains]; [exact H|].
  rewrite IH. apply orb_true_r.
Qed.

Lemma is_prefix_app (needle s b : str) :
  is_prefix needle s = true -> is_prefix needle (s ++ b) = true.
Proof.
  revert s. induction needle as [|x needle IH]; intros s H; [reflexivity|].
  destruct s as [|y s]; [discriminate|]. cbn [app is_prefix] in *.
  apply andb_prop in H as [Hxy H]. rewrite Hxy, (IH s H). reflexivity.
Qed.

Lemma contains_app_l (needle s b : str) :
  contains needle s = true -> contains needle (s ++ b) = true.
Proof.
  induction s as [|c s IH]; cbn [app contains]; intros H.
  - rewrite orb_false_r in H.
    destruct needle; [|discriminate].
    destruct b; reflexivity.
  - apply orb_prop in H as [H|H].
    + change (c :: s ++ b) with ((c :: s) ++ b).
      rewrite (is_prefix_app _ _ b H). reflexivity.
    + rewrite (IH H). apply orb_true_r.
Qed.

Section Searching.

Context {lib : Library} {mbox : Mailbox}.

Lemma upper_app (a b : str) : upper (a ++ b) = upper a ++ upper b.
Proof. unfold upper. apply flat_map_app. Qed.

(** X16: the keywords are looked for anywhere in the query, also inside a
    longer word: a query that holds a keyword still holds it with any text
    before and after it, and is then sent to the server unchanged. *)
Theorem has_keyword_anywhere (before query after : str) :
  has_keyword query = true ->
  has_keyword (before ++ query ++ after) = true /\
  imap_query (before ++ query ++ after) = before ++ query ++ after.
Proof.
  intros H.
  assert (Hk : has_keyword (before ++ query ++ after) = true).
  { unfold has_keyword in *. apply existsb_exists in H as (x & Hin & Hx).
    apply existsb_exists. exists x. split; [exact Hin|].
    rewrite !upper_app. apply contains_app_r, contains_app_l, Hx. }
  split; [exact Hk|]. rewrite imap_query_cases, Hk. reflexivity.
Qed.

Lemma search_step_length (results out : list json) (msg_id : bytes)
      (st st' : Session) :
  search_step results msg_id st = (Ok out, st') ->
  (length out <= length results + 1)%nat.
Proof.
  unfold search_step, mbind, ret, lift. intros H.
  follow_run H; injection H as <- <-; [lia|].
  rewrite length_app. cbn. lia.
Qed.

Lemma for_each_search_step_length (message_ids : list bytes) :
  forall (results out : list json) (st st' : Session),
    for_each search_step message_ids results st = (Ok out, st') ->
    (length out <= length results + length message_ids)%nat.
Proof.
  induction message_ids as [|msg_id rest IH]; intros results out st st';
    cbn [for_each length].
  - unfold ret. intros H. injection H as <- <-. lia.
  - unfold mbind.
    destruct (search_step results msg_id st) as [[mid|e] s1] eqn:Hstep;
      [|discriminate].
    intros H. apply IH in H. apply search_step_length in Hstep. lia.
Qed.

Lemma limit_message_ids_length (limit : Z) (message_ids : list bytes) :
  (1 <= limit)%Z ->
  (Z.of_nat (length (limit_message_ids limit message_ids)) <= limit)%Z.
Proof.
  intros Hlimit. rewrite (slice_from_tail _ _ Hlimit).
  unfold last_n. rewrite length_skipn. lia.
Qed.

(** X17: with a limit of at least one, the JSON document of a search lists
    at least one and at most [limit] messages, and its count field is the
    number of messages listed. *)
Theorem search_emails_at_most_limit (query folder : str) (limit : Z)
        (st st' : Session) (fields : list (str * json)) :
  (1 <= limit)%Z ->
  search_emails query folder limit st = (Ok (TJson (JObj fields)), st') ->
  exists results,
    json_field (lit "results") fields = Some (JArr results) /\
    json_field (lit "count") fields = Some (JNum (length results)) /\
    (1 <= Z.of_nat (length results) <= limit)%Z.
Proof.
  intros Hlimit.
  unfold search_emails, mbind, try_except, ret, lift. intros H.
  follow_run H.
  injection H as -> <-.
  match goal with
  | Hc : collect_results _ _ _ ?ids _ = _ |- _ =>
      unfold collect_results, mbind, ret in Hc;
      destruct (for_each search_step _ [] _) as [[listed|err] s5] eqn:Hloop;
        [|discriminate Hc];
      apply for_each_search_step_length in Hloop;
      pose proof (limit_message_ids_length limit ids Hlimit) as Hlen;
      destruct listed as [|one listed];
        cbv beta iota delta [negb no_emails_found] in Hc;
        [discriminate Hc|];
      injection Hc as <- <-;
      exists (one :: listed); repeat split; cbn [length] in *; lia
  end.
Qed.

(** X18: a negative limit is not refused: the slice of line 294 then drops
    the first [-limit] ids of the reply, and a search that runs to its end
    fetches all the others, in order. *)
Theorem search_emails_negative_limit (query folder : str) (limit : Z)
        (st st' : Session) (out : text) :
  (limit < 0)%Z ->
  search_emails query folder limit st = (Ok out, st') ->
  is_report query out ->
  exists (conn : Conn) (before after : Session) (r : reply)
         (message_ids : list bytes),
    call conn (VSearch (imap_query query)) before = (Ok r, after) /\
    search_ids (data r) = Ok message_ids /\
    limit_message_ids limit message_ids
    = skipn (Z.to_nat (- limit)) message_ids /\
    trace st' = trace after
                ++ fetches (skipn (Z.to_nat (- limit)) message_ids).
Proof.
  intros Hlimit Hrun Hreport.
  destruct (search_emails_fetches _ _ _ _ _ _ Hrun Hreport)
    as (conn & before & after & r & message_ids & Hcall & Hids & Htrace).
  assert (Hslice : limit_message_ids limit message_ids
                   = skipn (Z.to_nat (- limit)) message_ids).
  { unfold limit_message_ids, slice_from.
    replace (Z.min limit (Z.of_nat (length message_ids))) with limit by lia.
    destruct (- limit <? 0)%Z eqn:Hneg; [apply Z.ltb_lt in Hneg; lia|].
    destruct (Z.min_spec (- limit) (Z.of_nat (length message_ids)))
      as [[_ ->]|[Hge ->]]; [reflexivity|].
    rewrite Nat2Z.id, !skipn_all2 by lia. reflexivity. }
  exists conn, before, after, r, message_ids.
  repeat split; try assumption. now rewrite Htrace, Hslice.
Qed.

(** X19: whenever [get_unread_count] returns its JSON document, it has
    selected the folder and searched it for UNSEEN, these were its last two
    commands (it fetches nothing), and the count is the number of ids in
    the reply to that search. *)
Theorem get_unread_count_counts_ids (folder : str) (st st' : Session)
        (j : json) :
  get_unread_count folder st = (Ok (TJson j), st') ->
  exists (conn : Conn) (connected selected : Session) (r : reply)
         (message_ids : list bytes),
    connect_to_email st = (Ok true, connected) /\
    trace selected = trace connected ++ [Called (VSelect folder)] /\
    call conn (VSearch (lit "UNSEEN")) selected = (Ok r, st') /\
    trace st' = trace connected ++ [Called (VSelect folder);
                                    Called (VSearch (lit "UNSEEN"))] /\
    search_ids (data r) = Ok message_ids /\
    j = JObj [(lit "folder", JStr folder);
              (lit "unread_count", JNum (length message_ids))].
Proof.
  unfold get_unread_count, mbind, try_except, ret, lift. intros H.
  follow_run H.
  injection H as <- <-.
  match goal with
  | Hco : connect_to_email st = (Ok ?b, ?s0),
    Hb : negb ?b = false,
    Hg1 : get_connection ?s0 = (Ok ?c1, ?s1),
    Hsel : call ?c1 (VSelect folder) ?s1 = (Ok _, ?s2),
    Hg2 : get_connection ?s2 = (Ok ?c2, ?s3),
    Hse : call ?c2 (VSearch _) ?s3 = (Ok ?r, _),
    Hi : search_ids _ = Ok ?ids |- _ =>
      apply negb_false_iff in Hb; subst b;
      apply get_connection_ok in Hg1; apply get_connection_ok in Hg2;
      subst s1 s3;
      pose proof (call_trace _ _ _ _ _ Hsel) as [Ht1 _];
      pose proof (call_trace _ _ _ _ _ Hse) as [Ht2 _];
      exists c2, s0, s2, r, ids; repeat split; try assumption;
      rewrite Ht2, Ht1, <- app_assoc; reflexivity
  end.
Qed.

(** *** The error texts of the tools *)

(** A tool of the common shape (connect, then a [try] whose handler for
    [Exception] reports and returns) returns the text of an error only from
    its handler, when its body returns no such text itself. *)
Lemma guarded_tool_error (prefix : str) (body : M text)
      (st st' : Session) (q : str) (e : exn) :
  (forall s s' v, body s = (Ok v, s') -> forall q0 e0, v <> TExn q0 e0) ->
  (connected <- connect_to_email ;;
   if negb connected then ret connect_failed
   else try_except body is_Exception
          (fun e => ctx_error (TExnTrace prefix e) ;;
                    ret (TExn prefix e))) st
  = (Ok (TExn q e), st') ->
  is_Exception e = true /\
  exists before, ctx_error (TExnTrace q e) before = (Ok tt, st').
Proof.
  intros Hbody. unfold mbind at 1.
  destruct (connect_to_email st) as [[connected|e0] s0]; [|discriminate].
  destruct (negb connected); [discriminate|].
  unfold try_except.
  destruct (body s0) as [[v|e1] s1] eqn:Hb.
  - intros H. injection H as -> <-. now destruct (Hbody _ _ _ Hb q e).
  - destruct (is_Exception e1) eqn:He1; [|discriminate].
    unfold mbind, ret.
    destruct (ctx_error _ s1) as [[[]|e2] s2] eqn:Herr;
      [|unfold ctx_error, emit in Herr; discriminate Herr].
    intros H. injection H as <- <- <-. split; [exact He1|].
    exists s1. exact Herr.
Qed.

(** X20: whenever [list_folders], [search_emails], [read_email] or
    [get_unread_count] returns the text of an error, an [Exception] was
    raised inside its [try] block, and the last action of the tool was the
    call of [ctx.error] with the same prefix, the same exception and its
    traceback. *)
Theorem reading_tools_report_errors
        (query email_id folder prefix : str) (limit : Z)
        (st st' : Session) (e : exn) :
  list_folders st = (Ok (TExn prefix e), st')
  \/ search_emails query folder limit st = (Ok (TExn prefix e), st')
  \/ read_email email_id folder st = (Ok (TExn prefix e), st')
  \/ get_unread_count folder st = (Ok (TExn prefix e), st') ->
  is_Exception e = true /\
  exists before, ctx_error (TExnTrace prefix e) before = (Ok tt, st').
Proof.
  intros [H|[H|[H|H]]];
    (eapply guarded_tool_error; [|exact H]);
    intros s s' v Hb q0 e0;
    unfold collect_results in Hb; unfold mbind, ret, lift in Hb;
    follow_run Hb; injection Hb as <- <-; discriminate.
Qed.

End Searching.

(** ** Reading one message *)

(** X21: the body field is bounded: it never holds more than 2003
    characters, and its first 2000 characters are those of the body. *)
Theorem body_field_bounded (body : str) :
  (length (body_field body) <= 2003)%nat /\
  firstn 2000 (body_field body) = firstn 2000 body.
Proof.
  unfold body_field. split.
  - rewrite length_app, length_firstn.
    destruct (2000 <? length body)%nat;
      [change (lit "...") with [46; 46; 46]|]; cbn [length]; lia.
  - destruct (2000 <? length body)%nat eqn:H.
    + apply Nat.ltb_lt in H.
      rewrite firstn_app, length_firstn.
      replace (2000 - Nat.min 2000 (length body))%nat with 0%nat by lia.
      rewrite firstn_O, app_nil_r, firstn_firstn, Nat.min_id. reflexivity.
    + rewrite app_nil_r, firstn_firstn, Nat.min_id. reflexivity.
Qed.

(** ** The tools that change the mailbox *)

Section Flags.

Context {lib : Library} {mbox : Mailbox} {fbox : FlagMailbox mbox}.

Lemma flag_call_log (conn : Conn) (v : flag_verb) (fs fs' : FlagSession)
      (r : result reply) :
  flag_call conn v fs = (r, fs') ->
  flag_log fs' = flag_log fs ++ [(length (trace (base fs)), v)] /\
  trace (base fs') = trace (base fs) /\
  email_config (base fs') = email_config (base fs).
Proof.
  unfold flag_call. destruct (imap_flag_call _ _ _) as [srv r0].
  intros H. injection H as <- <-. cbn. auto.
Qed.

Lemma get_connection_state (st st' : Session) (r : result Conn) :
  get_connection st = (r, st') -> st' = st.
Proof. unfold get_connection. intros H. follow_run H; congruence. Qed.

Lemma ctx_error_trace (m : text) (st st' : Session) (r : result unit) :
  ctx_error m st = (r, st') ->
  r = Ok tt /\ trace st' = trace st ++ [CtxError m]
  /\ email_config st' = email_config st.
Proof.
  unfold ctx_error, emit. intros H. injection H as <- <-. cbn. auto.
Qed.

(** The facts that the steps of a run leave about the logs. *)
Ltac log_facts :=
  repeat match goal with
  | H : get_connection _ = _ |- _ => apply get_connection_state in H; subst
  | H : flag_call _ _ _ = _ |- _ =>
      apply flag_call_log in H; cbn [base flag_log] in H;
      destruct H as (? & ? & ?)
  | H : call _ _ _ = _ |- _ =>
      apply call_trace in H; destruct H as (? & ?)
  | H : ctx_error _ _ = _ |- _ =>
      apply ctx_error_trace in H; destruct H as (? & ? & ?)
  | H : Ok _ = Ok _ |- _ => injection H as H; subst
  | H : encode_utf8 ?x = Ok ?a, H' : encode_utf8 ?x = Ok ?b |- _ =>
      rewrite H in H'; injection H' as H'; subst
  end.

Ltac flag_logs :=
  cbn [base flag_log];
  repeat match goal with
         | Hl : flag_log _ = _ |- _ => rewrite Hl; clear Hl
         end;
  rewrite ?map_app; cbn [map snd]; rewrite <- ?app_assoc; cbn [app].

Ltac refute_text Hr :=
  first [ discriminate Hr
        | injection Hr as Hr;
          first [discriminate Hr | cbn in Hr; discriminate Hr] ].

Lemma copy_accepted_intro
      (fs after : FlagSession) (connected s1 selected s3 : Session)
      (conn0 conn : Conn) (source_folder destination_folder : str)
      (message_set : bytes) (r1 r : reply) :
  connect_to_email (base fs) = (Ok true, connected) ->
  get_connection connected = (Ok conn0, s1) ->
  call conn0 (VSelect source_folder) s1 = (Ok r1, selected) ->
  status_ok r1 = true ->
  get_connection selected = (Ok conn, s3) ->
  flag_call conn (VCopy message_set destination_folder)
            {| base := s3; flag_log := flag_log fs |}
  = (Ok r, after) ->
  status_ok r = true ->
  copy_accepted fs source_folder message_set destination_folder.
Proof.
  intros Hconnect Hget0 Hselect Hok1 Hget Hcopy Hok.
  pose proof (get_connection_state _ _ _ Hget0). subst s1.
  pose proof (get_connection_state _ _ _ Hget). subst s3.
  assert (Hsame : get_connection selected = (Ok conn0, selected)).
  { apply (get_connection_same_config connected); [exact Hget0|].
    apply call_trace in Hselect. tauto. }
  rewrite Hsame in Hget. injection Hget as <-.
  exists conn0, connected, selected, after, r1, r. auto 7.
Qed.

Ltac note_copy :=
  try match goal with
      | Hk : connect_to_email (base ?fs) = (Ok ?b, _),
        Hs : call _ (VSelect ?src) _ = (Ok _, _),
        Hc : flag_call _ (VCopy ?m ?d) _ = (Ok ?rep, _),
        Hok : negb (status_ok ?rep) = false |- _ =>
          assert (copy_accepted fs src m d)
            by (repeat match goal with
                       | Hn : negb _ = false |- _ =>
                           apply negb_false_iff in Hn
                       end;
                subst b; eapply copy_accepted_intro; eassumption)
      end.

(** X22: whatever happens, [move_email] sends its three commands in the
    order COPY, STORE +FLAGS \Deleted, EXPUNGE and stops at the first that
    fails: it sends a beginning of this list and nothing else, and the
    message is flagged as deleted only after the server has answered OK to
    the SELECT of the source folder and then to the copy. *)
Theorem move_email_copies_before_deleting
        (email_id source_folder destination_folder : str)
        (fs fs' : FlagSession) (r : result text) :
  move_email email_id source_folder destination_folder fs = (r, fs') ->
  exists (message_set : bytes) (n : nat),
    (n = 0%nat \/ encode_utf8 email_id = Ok message_set) /\
    map snd (flag_log fs')
    = map snd (flag_log fs)
      ++ firstn n (move_commands message_set destination_folder) /\
    ((2 <= n)%nat ->
     copy_accepted fs source_folder message_set destination_folder).
Proof.
  intros H.
  unfold move_email, fbind, ftry_except, on_base, fret, flift in H.
  follow_run H; injection H as <- <-; note_copy; log_facts; flag_logs.
  all: try (exists [], 0%nat; split; [now left|];
            split; [now rewrite app_nil_r | intros; lia]).
  all: match goal with
       | He : encode_utf8 _ = Ok ?m |- _ =>
           first [ exists m, 1%nat; split; [now right|];
                   split; [reflexivity | intros; lia]
                 | exists m, 2%nat; split; [now right|];
                   split; [reflexivity | intros; assumption]
                 | exists m, 3%nat; split; [now right|];
                   split; [reflexivity | intros; assumption] ]
       end.
Qed.

(** X23: when [move_email] reports that the message was moved, it has sent
    the copy, the deletion flag and the expunge for this message, in this
    order, and nothing else. *)
Theorem move_email_moved_sent_all
        (email_id source_folder destination_folder : str)
        (fs fs' : FlagSession) :
  move_email email_id source_folder destination_folder fs
  = (Ok (moved email_id source_folder destination_folder), fs') ->
  exists message_set : bytes,
    encode_utf8 email_id = Ok message_set /\
    map snd (flag_log fs')
    = map snd (flag_log fs) ++ move_commands message_set destination_folder /\
    copy_accepted fs source_folder message_set destination_folder.
Proof.
  intros H.
  unfold move_email, fbind, ftry_except, on_base, fret, flift, moved,
    connect_failed in H.
  follow_run H; apply pair_equal_spec in H as [Htext <-];
    try discriminate Htext;
    try (injection Htext as Htext; cbn in Htext; discriminate Htext).
  clear Htext. note_copy; log_facts; flag_logs.
  match goal with
  | He : encode_utf8 _ = Ok ?m |- _ =>
      exists m; split; [first [exact He | reflexivity]|];
      split; [reflexivity | assumption]
  end.
Qed.

(** X24: [delete_email] sends STORE +FLAGS \Deleted and then EXPUNGE, and
    stops at the first that fails: it sends a beginning of this list and
    nothing else, and both when it reports that the message was deleted. *)
Theorem delete_email_commands (email_id folder : str)
        (fs fs' : FlagSession) (r : result text) :
  delete_email email_id folder fs = (r, fs') ->
  exists (message_set : bytes) (n : nat),
    (n = 0%nat \/ encode_utf8 email_id = Ok message_set) /\
    map snd (flag_log fs')
    = map snd (flag_log fs) ++ firstn n (delete_commands message_set) /\
    (r = Ok (was_deleted email_id) -> n = 2%nat).
Proof.
  intros H.
  unfold delete_email, fbind, ftry_except, on_base, fret, flift, was_deleted,
    connect_failed in H |- *.
  follow_run H; injection H as <- <-; log_facts; flag_logs.
  all: try (exists [], 0%nat; split; [now left|];
            split; [now rewrite app_nil_r|];
            intros Hr; refute_text Hr).
  all: match goal with
       | He : encode_utf8 _ = Ok ?m |- _ =>
           first [ exists m, 2%nat; split; [now right|];
                   split; [reflexivity | intros; reflexivity]
                 | exists m, 1%nat; split; [now right|];
                   split; [reflexivity|];
                   intros Hr; refute_text Hr ]
       end.
Qed.

(** X25: [mark_as_read] and [mark_as_unread] change one flag of one
    message: they send one command at most, the STORE of \Seen for this
    message with +FLAGS (read) or -FLAGS (unread), never a COPY or an
    EXPUNGE, and they have sent it when they report success. *)
Theorem mark_tools_store_seen_only
        (email_id folder command word : str)
        (fs fs' : FlagSession) (r : result text) :
  (mark_as_read email_id folder fs = (r, fs')
   /\ command = add_flags /\ word = lit "read")
  \/ (mark_as_unread email_id folder fs = (r, fs')
      /\ command = remove_flags /\ word = lit "unread") ->
  exists (message_set : bytes) (n : nat),
    (n = 0%nat \/ encode_utf8 email_id = Ok message_set) /\
    map snd (flag_log fs')
    = map snd (flag_log fs) ++ firstn n [VStore message_set command seen] /\
    (r = Ok (T (lit "Email " ++ email_id ++ lit " marked as " ++ word)) ->
     n = 1%nat).
Proof.
  intros [(H & -> & ->)|(H & -> & ->)];
    [unfold mark_as_read in H | unfold mark_as_unread in H];
    unfold fbind, ftry_except, on_base, fret, flift, connect_failed in H;
    follow_run H; injection H as <- <-; log_facts; flag_logs.
  all: try (exists [], 0%nat; split; [now left|];
            split; [now rewrite app_nil_r|];
            intros Hr; refute_text Hr).
  all: match goal with
       | He : encode_utf8 _ = Ok ?m |- _ =>
           exists m, 1%nat; split; [now right|];
           split; [reflexivity | intros; reflexivity]
       end.
Qed.

(** X26: the answer to EXPUNGE is not looked at: once the folder is selected
    and the message is flagged as deleted, [delete_email] reports that the
    message was deleted whatever status the server gives to the EXPUNGE. *)
Theorem delete_email_ignores_expunge_status
        (email_id folder : str) (fs fs2 fs3 : FlagSession)
        (connected selected : Session) (conn : Conn) (message_set : bytes)
        (r1 r2 r3 : reply) :
  connect_to_email (base fs) = (Ok true, connected) ->
  get_connection connected = (Ok conn, connected) ->
  call conn (VSelect folder) connected = (Ok r1, selected) ->
  status_ok r1 = true ->
  encode_utf8 email_id = Ok message_set ->
  flag_call conn (VStore message_set add_flags deleted)
            {| base := selected; flag_log := flag_log fs |}
  = (Ok r2, fs2) ->
  status_ok r2 = true ->
  flag_call conn VExpunge fs2 = (Ok r3, fs3) ->
  delete_email email_id folder fs = (Ok (was_deleted email_id), fs3).
Proof.
  intros Hconnect Hconn Hselect Hok1 Hencode Hstore Hok2 Hexpunge.
  pose proof (call_trace _ _ _ _ _ Hselect) as [_ Hcfg1].
  pose proof (flag_call_log _ _ _ _ _ Hstore) as (_ & _ & Hcfg2).
  cbn [base] in Hcfg2.
  pose proof (get_connection_same_config _ selected _ Hconn Hcfg1) as Hconn1.
  assert (Hconn2 : get_connection (base fs2) = (Ok conn, base fs2)).
  { apply (get_connection_same_config connected); [exact Hconn|].
    now rewrite Hcfg2. }
  unfold delete_email, fbind, ftry_except, on_base, fret, flift.
  rewrite Hconnect. cbn [negb base flag_log].
  rewrite Hconn. cbn [base flag_log].
  rewrite Hselect, Hok1. cbn [negb base flag_log].
  rewrite Hconn1, Hencode. cbn [base flag_log].
  rewrite Hstore, Hok2. cbn [negb].
  rewrite Hconn2.
  replace {| base := base fs2; flag_log := flag_log fs2 |} with fs2
    by (destruct fs2; reflexivity).
  rewrite Hexpunge. reflexivity.
Qed.

(** X27: the shutdown never fails and forgets nothing: when a connection is
    recorded it sends one LOGOUT on it and swallows whatever that raises,
    otherwise it sends nothing; in both cases [email_config] and the trace
    are left as they were. *)
Theorem server_lifespan_exit_logs_out (fs fs' : FlagSession)
        (r : result unit) :
  server_lifespan_exit fs = (r, fs') ->
  r = Ok tt /\
  email_config (base fs') = email_config (base fs) /\
  trace (base fs') = trace (base fs) /\
  ((holds_connection (base fs)
    /\ map snd (flag_log fs') = map snd (flag_log fs) ++ [VLogout])
   \/ (~ holds_connection (base fs) /\ flag_log fs' = flag_log fs)).
Proof.
  unfold server_lifespan_exit, ftry_except, fbind, fret, caught_all,
    holds_connection.
  destruct (email_config (base fs)) as [cfg|] eqn:Hcfg.
  - destruct (connection cfg) as [conn|] eqn:Hconn.
    + destruct (flag_call conn VLogout fs) as [[rep|e] fs1] eqn:Hcall;
        apply flag_call_log in Hcall as (Hlog & Htrace & Hsame);
        intros H; injection H as <- <-;
        (split; [reflexivity|]); (split; [now rewrite Hsame|]);
        (split; [exact Htrace|]); left;
        (split; [eauto|]); rewrite Hlog, map_app; reflexivity.
    + intros H. injection H as <- <-. repeat split; auto.
      right. split; [|reflexivity].
      intros (cfg' & conn' & Hc & Hc'). congruence.
  - intros H. injection H as <- <-. repeat split; auto.
    right. split; [|reflexivity].
    intros (cfg' & conn' & Hc & Hc'). congruence.
Qed.

(** A tool of the common shape in the larger session returns the text of
    an error only from its handler too. *)
Lemma guarded_flag_tool_error (prefix : str) (body : F text)
      (fs fs' : FlagSession) (q : str) (e : exn) :
  (forall s s' v, body s = (Ok v, s') -> forall q0 e0, v <> TExn q0 e0) ->
  fbind (on_base connect_to_email)
        (fun connected =>
           if negb connected then fret connect_failed
           else ftry_except body is_Exception
                  (fun e => fbind (on_base (ctx_error (TExnTrace prefix e)))
                                  (fun _ => fret (TExn prefix e)))) fs
  = (Ok (TExn q e), fs') ->
  is_Exception e = true /\
  exists before,
    on_base (ctx_error (TExnTrace q e)) before = (Ok tt, fs').
Proof.
  intros Hbody. unfold fbind at 1, on_base at 1.
  destruct (connect_to_email (base fs)) as [[connected|e0] s0];
    [|discriminate].
  destruct (negb connected); [discriminate|].
  unfold ftry_except.
  destruct (body _) as [[v|e1] s1] eqn:Hb.
  - intros H. injection H as -> <-. now destruct (Hbody _ _ _ Hb q e).
  - destruct (is_Exception e1) eqn:He1; [|discriminate].
    unfold fbind, fret.
    destruct (on_base _ s1) as [[[]|e2] s2] eqn:Herr;
      [|unfold on_base, ctx_error, emit in Herr; discriminate Herr].
    intros H. injection H as <- <- <-. split; [exact He1|].
    exists s1. exact Herr.
Qed.

(** X28: whenever [mark_as_read], [mark_as_unread], [move_email] or
    [delete_email] returns the text of an error, an [Exception] was raised
    inside its [try] block, and the last action of the tool was the call of
    [ctx.error] with the same prefix, the same exception and its
    traceback. *)
Theorem flag_tools_report_errors
        (email_id folder destination_folder prefix : str)
        (fs fs' : FlagSession) (e : exn) :
  mark_as_read email_id folder fs = (Ok (TExn prefix e), fs')
  \/ mark_as_unread email_id folder fs = (Ok (TExn prefix e), fs')
  \/ move_email email_id folder destination_folder fs
     = (Ok (TExn prefix e), fs')
  \/ delete_email email_id folder fs = (Ok (TExn prefix e), fs') ->
  is_Exception e = true /\
  exists before,
    on_base (ctx_error (TExnTrace prefix e)) before = (Ok tt, fs').
Proof.
  intros [H|[H|[H|H]]];
    (eapply guarded_flag_tool_error; [|exact H]);
    intros s s' v Hb q0 e0;
    unfold fbind, fret, flift, on_base in Hb;
    follow_run Hb; injection Hb as <- <-; discriminate.
Qed.

End Flags.

(** ** Runs that meet the preconditions *)

Lemma decode_modified_utf7_literal_prefix_witness :
  decode_modified_utf7 (lit "INBOX/" ++ lit "&AOk-")
  = bind (decode_modified_utf7 (lit "&AOk-"))
         (fun r => Ok (lit "INBOX/" ++ r))
  /\ decode_modified_utf7 (lit "INBOX/") = Ok (lit "INBOX/").
Proof.
  apply (decode_modified_utf7_literal_prefix (lit "INBOX/") (lit "&AOk-")).
  reflexivity.
Defined.

Lemma decode_modified_utf7_without_dash_witness :
  decode_modified_utf7 (lit "R&D") = Ok (lit "R&D").
Proof.
  apply (decode_modified_utf7_without_dash (lit "R&D")). reflexivity.
Defined.

Lemma decode_modified_utf7_fails_only_outside_ascii_witness :
  ValueError = ValueError /\ is_ascii [amp; 233; dash] = false.
Proof.
  apply (decode_modified_utf7_fails_only_outside_ascii [amp; 233; dash]).
  reflexivity.
Defined.

Lemma decode_email_header_plain_witness :
  @decode_email_header sample_library (lit "Re: 2 + 2 = 4?")
  = Ok (lit "Re: 2 + 2 = 4?").
Proof.
  apply (@decode_email_header_plain sample_library). reflexivity.
Defined.

Lemma decode_email_header_fails_only_on_base64_witness :
  HeaderParseError = HeaderParseError.
Proof.
  apply (@decode_email_header_fails_only_on_base64 sample_library
           (lit "=?utf-8?b?a?=")).
  reflexivity.
Defined.

Lemma get_email_body_ignores_attachment_witness :
  get_email_body
    (Multipart (plain_headers "multipart/mixed" None)
               ([plain_part] ++ pdf_part :: [html_part]))
  = get_email_body
      (Multipart (plain_headers "multipart/mixed" None)
                 ([plain_part] ++ [html_part])).
Proof.
  apply (get_email_body_ignores_attachment
           (plain_headers "multipart/mixed" None)
           (plain_headers "application/pdf"
                          (Some (lit "attachment; filename=a.pdf")))
           (Some (lit "%PDF-1.4")) [plain_part] [html_part]).
  reflexivity.
Defined.

Lemma connect_to_email_true_holds_connection_witness :
  holds_connection (snd (@connect_to_email twenty_mailbox twenty_session)).
Proof.
  apply (@connect_to_email_true_holds_connection twenty_mailbox
           twenty_session).
  reflexivity.
Defined.

Lemma connect_to_email_false_keeps_config_witness :
  email_config
    (snd (@connect_to_email unreachable_mailbox
            (logged_in unreachable_mailbox tt tt)))
  = email_config (logged_in unreachable_mailbox tt tt).
Proof.
  apply (@connect_to_email_false_keeps_config unreachable_mailbox).
  reflexivity.
Defined.

Lemma connect_to_email_false_reports_witness :
  exists (before : @Session unreachable_mailbox) (m : text),
    ctx_error m before
    = (Ok tt, snd (@connect_to_email unreachable_mailbox
                     (logged_in unreachable_mailbox tt tt))) /\
    (m = credentials_not_found
     \/ exists e, is_Exception e = true
                  /\ m = TExn (lit "Failed to connect to Yahoo Mail: ") e).
Proof.
  apply (@connect_to_email_false_reports unreachable_mailbox
           (logged_in unreachable_mailbox tt tt)).
  reflexivity.
Defined.

Lemma connect_to_email_without_credentials_witness :
  @connect_to_email no_credentials_mailbox
                    (fresh_session no_credentials_mailbox tt)
  = (Ok false,
     logged (fresh_session no_credentials_mailbox tt)
       [CtxError (T (lit "Email credentials not found. Set YAHOO_EMAIL and YAHOO_PASSWORD environment variables."))]).
Proof.
  apply (@connect_to_email_without_credentials no_credentials_mailbox
           (fresh_session no_credentials_mailbox tt));
    reflexivity.
Defined.

Lemma connect_to_email_reconnects_witness :
  @connect_to_email restarted_mailbox (logged_in restarted_mailbox tt false)
  = (Ok true,
     logged (logged_in restarted_mailbox tt true)
       [Called VNoop;
        Opened default_server default_port;
        Called (VLogin (lit "user@example.com") (lit "secret"));
        CtxInfo (T (lit "Successfully connected to user@example.com"))]).
Proof.
  apply (@connect_to_email_reconnects restarted_mailbox
           (logged_in restarted_mailbox tt false)
           (@Build_EmailConfig restarted_mailbox
              (lit "user@example.com") (lit "secret")
              default_server default_port (Some false))
           false true tt tt tt OSError
           (lit "user@example.com") (lit "secret") (ok_reply []));
    reflexivity.
Defined.

Lemma list_folders_step_quoted_name_witness :
  search_quoted (decode_utf8_replace inbox_line) = Some (lit "INBOX") /\
  @list_folders_step accented_mailbox [] (IBytes inbox_line) accented_session
  = (Ok ([] ++ [lit "INBOX"]),
     logged accented_session
       [CtxInfo (T (lit "Raw folder: " ++ decode_utf8_replace inbox_line));
        CtxInfo (T (lit "Before decoding: " ++ lit "INBOX"));
        CtxInfo (T (lit "After decoding: " ++ lit "INBOX"))]).
Proof.
  apply (@list_folders_step_quoted_name accented_mailbox [] inbox_line
           (lit "(\HasNoChildren) " ++ [quote] ++ lit "/" ++ [quote]
            ++ lit " ")
           (lit "INBOX") accented_session);
    reflexivity.
Defined.

Lemma list_folders_one_entry_per_line_witness :
  exists added,
    [lit "Sent"; lit "INBOX"] = [lit "Sent"] ++ added
    /\ (length added <= length [IBytes inbox_line; IBytes bare_line])%nat.
Proof.
  apply (@list_folders_one_entry_per_line accented_mailbox
           [IBytes inbox_line; IBytes bare_line]
           [lit "Sent"] [lit "Sent"; lit "INBOX"] accented_session
           (snd (for_each list_folders_step
                          [IBytes inbox_line; IBytes bare_line]
                          [lit "Sent"] accented_session))).
  reflexivity.
Defined.

Lemma search_ids_of_joined_reply_witness :
  search_ids (IBytes (join_spaces [lit "7"; lit "19"; lit "204"]) :: [])
  = Ok [lit "7"; lit "19"; lit "204"].
Proof.
  apply (search_ids_of_joined_reply [lit "7"; lit "19"; lit "204"] []).
  reflexivity.
Defined.

Lemma has_keyword_anywhere_witness :
  @has_keyword sample_library (lit "news " ++ lit "from" ++ lit "age") = true
  /\ @imap_query sample_library (lit "news " ++ lit "from" ++ lit "age")
     = lit "news " ++ lit "from" ++ lit "age".
Proof.
  apply (@has_keyword_anywhere sample_library (lit "news ") (lit "from")
           (lit "age")).
  reflexivity.
Defined.

Lemma search_emails_at_most_limit_witness :
  exists fields results,
    json_field (lit "results") fields = Some (JArr results) /\
    json_field (lit "count") fields = Some (JNum (length results)) /\
    (1 <= Z.of_nat (length results) <= 3)%Z.
Proof.
  eexists.
  eapply (@search_emails_at_most_limit sample_library twenty_mailbox
            (lit "ALL") (lit "INBOX") 3 twenty_session).
  - lia.
  - vm_compute. reflexivity.
Defined.

Lemma search_emails_negative_limit_witness :
  exists (st' : @Session twenty_mailbox) conn before after r message_ids,
    @call twenty_mailbox conn
          (VSearch (@imap_query sample_library (lit "ALL"))) before
    = (Ok r, after) /\
    search_ids (data r) = Ok message_ids /\
    limit_message_ids (-18) message_ids
    = skipn (Z.to_nat (- -18)) message_ids /\
    trace st' = trace after
                ++ fetches (skipn (Z.to_nat (- -18)) message_ids).
Proof.
  eexists.
  eapply (@search_emails_negative_limit sample_library twenty_mailbox
            (lit "ALL") (lit "INBOX") (-18) twenty_session).
  - lia.
  - vm_compute. reflexivity.
  - right. eexists. reflexivity.
Defined.

Lemma get_unread_count_counts_ids_witness :
  exists (st' : @Session twenty_mailbox) (j : json)
         (conn : Conn) (connected selected : Session) (r : reply)
         (message_ids : list bytes),
    connect_to_email twenty_session = (Ok true, connected) /\
    trace selected = trace connected ++ [Called (VSelect (lit "INBOX"))] /\
    call conn (VSearch (lit "UNSEEN")) selected = (Ok r, st') /\
    trace st' = trace connected ++ [Called (VSelect (lit "INBOX"));
                                    Called (VSearch (lit "UNSEEN"))] /\
    search_ids (data r) = Ok message_ids /\
    j = JObj [(lit "folder", JStr (lit "INBOX"));
              (lit "unread_count", JNum (length message_ids))].
Proof.
  do 2 eexists.
  eapply (@get_unread_count_counts_ids twenty_mailbox (lit "INBOX")
            twenty_session).
  vm_compute. reflexivity.
Defined.

Lemma reading_tools_report_errors_witness :
  is_Exception IMAP4Error = true /\
  exists before : @Session failing_mailbox,
    ctx_error (TExnTrace (lit "Error reading email: ") IMAP4Error) before
    = (Ok tt, snd (@read_email sample_library failing_mailbox
                     (lit "7") (lit "INBOX") failing_session)).
Proof.
  apply (@reading_tools_report_errors sample_library failing_mailbox
           (lit "ALL") (lit "7") (lit "INBOX")
           (lit "Error reading email: ") 10 failing_session).
  right. right. left. reflexivity.
Defined.


Lemma move_email_copies_before_deleting_witness :
  exists (message_set : bytes) (n : nat),
    (n = 0%nat \/ encode_utf8 (lit "7") = Ok message_set) /\
    map snd (flag_log
               (snd (@move_email twenty_mailbox (scripted_flags (lit "OK"))
                       (lit "7") (lit "INBOX") (lit "Archive")
                       flag_session)))
    = map snd (flag_log flag_session)
      ++ firstn n (move_commands message_set (lit "Archive")) /\
    ((2 <= n)%nat ->
     @copy_accepted twenty_mailbox (scripted_flags (lit "OK"))
                    flag_session (lit "INBOX") message_set (lit "Archive")).
Proof.
  apply (@move_email_copies_before_deleting twenty_mailbox
           (scripted_flags (lit "OK"))
           (lit "7") (lit "INBOX") (lit "Archive") flag_session
           (snd (@move_email twenty_mailbox (scripted_flags (lit "OK"))
                   (lit "7") (lit "INBOX") (lit "Archive") flag_session))
           (Ok (moved (lit "7") (lit "INBOX") (lit "Archive")))).
  reflexivity.
Defined.

Lemma move_email_moved_sent_all_witness :
  exists message_set : bytes,
    encode_utf8 (lit "7") = Ok message_set /\
    map snd (flag_log
               (snd (@move_email twenty_mailbox (scripted_flags (lit "NO"))
                       (lit "7") (lit "INBOX") (lit "Archive")
                       flag_session)))
    = map snd (flag_log flag_session)
      ++ move_commands message_set (lit "Archive") /\
    @copy_accepted twenty_mailbox (scripted_flags (lit "NO"))
                   flag_session (lit "INBOX") message_set (lit "Archive").
Proof.
  apply (@move_email_moved_sent_all twenty_mailbox
           (scripted_flags (lit "NO"))
           (lit "7") (lit "INBOX") (lit "Archive") flag_session).
  reflexivity.
Defined.

Lemma delete_email_commands_witness :
  exists (message_set : bytes) (n : nat),
    (n = 0%nat \/ encode_utf8 (lit "7") = Ok message_set) /\
    map snd (flag_log
               (snd (@delete_email twenty_mailbox (scripted_flags (lit "OK"))
                       (lit "7") (lit "INBOX") flag_session)))
    = map snd (flag_log flag_session)
      ++ firstn n (delete_commands message_set) /\
    (Ok (was_deleted (lit "7")) = Ok (was_deleted (lit "7")) -> n = 2%nat).
Proof.
  apply (@delete_email_commands twenty_mailbox (scripted_flags (lit "OK"))
           (lit "7") (lit "INBOX") flag_session).
  reflexivity.
Defined.

Lemma mark_tools_store_seen_only_witness :
  exists (message_set : bytes) (n : nat),
    (n = 0%nat \/ encode_utf8 (lit "7") = Ok message_set) /\
    map snd (flag_log
               (snd (@mark_as_unread twenty_mailbox
                       (scripted_flags (lit "OK"))
                       (lit "7") (lit "INBOX") flag_session)))
    = map snd (flag_log flag_session)
      ++ firstn n [VStore message_set remove_flags seen] /\
    (Ok (T (lit "Email 7 marked as unread"))
     = Ok (T (lit "Email " ++ lit "7" ++ lit " marked as " ++ lit "unread")) ->
     n = 1%nat).
Proof.
  apply (@mark_tools_store_seen_only twenty_mailbox
           (scripted_flags (lit "OK"))
           (lit "7") (lit "INBOX") remove_flags (lit "unread") flag_session).
  right. split; [reflexivity|]. split; reflexivity.
Defined.

Lemma delete_email_ignores_expunge_status_witness :
  @delete_email twenty_mailbox (scripted_flags (lit "NO"))
                (lit "7") (lit "INBOX") flag_session
  = (Ok (was_deleted (lit "7")),
     {| base := logged twenty_session
                       [Called VNoop; Called (VSelect (lit "INBOX"))];
        flag_log := [(2%nat, VStore (lit "7") add_flags deleted);
                     (2%nat, VExpunge)] |}).
Proof.
  eapply (@delete_email_ignores_expunge_status twenty_mailbox
            (scripted_flags (lit "NO")) (lit "7") (lit "INBOX")
            flag_session);
    reflexivity.
Defined.

Lemma server_lifespan_exit_logs_out_witness :
  Ok tt = Ok tt /\
  email_config
    (base (snd (@server_lifespan_exit twenty_mailbox interrupted_flags
                  flag_session)))
  = email_config (base flag_session) /\
  trace
    (base (snd (@server_lifespan_exit twenty_mailbox interrupted_flags
                  flag_session)))
  = trace (base flag_session) /\
  ((holds_connection (base flag_session)
    /\ map snd
           (flag_log (snd (@server_lifespan_exit twenty_mailbox
                             interrupted_flags flag_session)))
       = map snd (flag_log flag_session) ++ [VLogout])
   \/ (~ holds_connection (base flag_session)
       /\ flag_log (snd (@server_lifespan_exit twenty_mailbox
                           interrupted_flags flag_session))
          = flag_log flag_session)).
Proof.
  apply (@server_lifespan_exit_logs_out twenty_mailbox interrupted_flags
           flag_session).
  reflexivity.
Defined.

Lemma flag_tools_report_errors_witness :
  is_Exception IMAP4Error = true /\
  exists before : @FlagSession twenty_mailbox,
    on_base (ctx_error (TExnTrace (lit "Error deleting email: ") IMAP4Error))
            before
    = (Ok tt, snd (@delete_email twenty_mailbox failing_flags
                     (lit "7") (lit "INBOX") flag_session)).
Proof.
  apply (@flag_tools_report_errors twenty_mailbox failing_flags
           (lit "7") (lit "INBOX") (lit "Archive")
           (lit "Error deleting email: ") flag_session).
  right. right. right. reflexivity.
Defined.
